(** * stix_to_zeek_intel: acquisition and orchestration pipeline

  A shallow embedding of [shared/bin/stix_to_zeek_intel.py].  The
  script's [main] is a sequence of loops around calls into the outside
  world (the file system, the TAXII client library, the converter of
  [stix_zeek_utils]).  Those calls are the fields of a [World] record;
  the control flow of [main], with its [try]/[except] blocks, is written
  in a small trace-and-exception monad. *)

From Stdlib Require Import String Ascii ZArith Lia Bool.
From stdpp Require Import base option list strings gmap.

Local Open Scope string_scope.
Local Open Scope list_scope.

(** ** Python strings

  A Python [str] is modelled by the bytes of its UTF-8 encoding.  An
  ASCII character never occurs inside the encoding of another character,
  so splitting at, searching for and slicing at ASCII characters give on
  the bytes what Python gives on the code points.  The case mapping of
  [str.lower] rests on the Unicode tables of the interpreter; it is not
  defined here but is a field of the world below, [str_lower]. *)

Module PyStr.

Definition dquote : string := String (ascii_of_nat 34) EmptyString.

(** [s.split(sep)] for a one-character separator: every occurrence
    splits, and the result is never empty. *)
Fixpoint split (sep : ascii) (s : string) : list string :=
  match s with
  | EmptyString => [EmptyString]
  | String c r =>
      if Ascii.eqb c sep then EmptyString :: split sep r
      else match split sep r with
           | f :: fs => String c f :: fs
           | [] => [String c EmptyString]
           end
  end.

(** Text that holds ASCII characters only: every byte is below 128. *)
Fixpoint is_ascii (s : string) : bool :=
  match s with
  | EmptyString => true
  | String c r => (nat_of_ascii c <? 128)%nat && is_ascii r
  end.

(** What [s.lower()] is on ASCII text: the letters [A]-[Z] become
    [a]-[z] and nothing else changes. *)
Definition ascii_lower_char (c : ascii) : ascii :=
  let n := nat_of_ascii c in
  if (65 <=? n)%nat && (n <=? 90)%nat then ascii_of_nat (n + 32) else c.

Fixpoint ascii_lower (s : string) : string :=
  match s with
  | EmptyString => EmptyString
  | String c r => String (ascii_lower_char c) (ascii_lower r)
  end.

(** Two characters that are the same, or the capital and the small form
    of one ASCII letter (told by their codes, 32 apart). *)
Definition same_letter (a b : ascii) : bool :=
  let m := nat_of_ascii a in
  let n := nat_of_ascii b in
  (m =? n)%nat
  || ((65 <=? m)%nat && (m <=? 90)%nat && (n =? m + 32)%nat)
  || ((65 <=? n)%nat && (n <=? 90)%nat && (m =? n + 32)%nat).

(** Two texts that differ at most in the case of ASCII letters. *)
Fixpoint same_ignoring_case (s1 s2 : string) : bool :=
  match s1, s2 with
  | EmptyString, EmptyString => true
  | String a r1, String b r2 => same_letter a b && same_ignoring_case r1 r2
  | _, _ => false
  end.

(** [s.startswith(p)] *)
Fixpoint startswith (s p : string) : bool :=
  match p, s with
  | EmptyString, _ => true
  | String _ _, EmptyString => false
  | String a p', String b s' => Ascii.eqb a b && startswith s' p'
  end.

(** [sub in s] *)
Fixpoint contains (sub s : string) : bool :=
  startswith s sub ||
  match s with
  | EmptyString => false
  | String _ r => contains sub r
  end.

(** [c in s] for a single character. *)
Fixpoint has_char (c : ascii) (s : string) : bool :=
  match s with
  | EmptyString => false
  | String a r => Ascii.eqb a c || has_char c r
  end.

(** [sep.join(l)] *)
Fixpoint join (sep : string) (l : list string) : string :=
  match l with
  | [] => EmptyString
  | [x] => x
  | x :: r => x +:+ sep +:+ join sep r
  end.

(** [s.rfind(c)] for a single character: the highest index where [c]
    occurs, or [-1]. *)
Fixpoint rfind_from (c : ascii) (s : string) (i best : Z) : Z :=
  match s with
  | EmptyString => best
  | String a r => rfind_from c r (i + 1) (if Ascii.eqb a c then i else best)
  end.

Definition rfind (c : ascii) (s : string) : Z := rfind_from c s 0 (-1).

(** [s[i:]] and [s[:i]] for [0 <= i]. *)
Fixpoint drop_chars (n : nat) (s : string) : string :=
  match n, s with
  | O, _ => s
  | S n', String _ r => drop_chars n' r
  | S _, EmptyString => EmptyString
  end.

Fixpoint take_chars (n : nat) (s : string) : string :=
  match n, s with
  | S n', String a r => String a (take_chars n' r)
  | _, _ => EmptyString
  end.

Definition slice_from (i : Z) (s : string) : string := drop_chars (Z.to_nat i) s.
Definition slice_to (i : Z) (s : string) : string := take_chars (Z.to_nat i) s.

End PyStr.

(** ** [os.path] (POSIX flavour) *)

Module OsPath.
Import PyStr.

(** [posixpath.basename]: [i = p.rfind('/') + 1; return p[i:]]. *)
Definition basename (p : string) : string :=
  let i := (rfind "/" p + 1)%Z in
  slice_from i p.

(** The [while] loop of [genericpath._splitext]: is there a character
    other than the extension separator at an index in
    [filenameIndex, dotIndex)?  [fuel] is the number of indices left. *)
Fixpoint has_non_dot (fuel : nat) (s : string) : bool :=
  match fuel, s with
  | S fuel', String a r => negb (Ascii.eqb a ".") || has_non_dot fuel' r
  | _, _ => false
  end.

(** [posixpath.splitext]: split at the last dot of the last path
    component, leading dots of that component not counting. *)
Definition splitext (p : string) : string * string :=
  let sepIndex := rfind "/" p in
  let dotIndex := rfind "." p in
  if (sepIndex <? dotIndex)%Z
  then
    let filenameIndex := (sepIndex + 1)%Z in
    if has_non_dot (Z.to_nat (dotIndex - filenameIndex)) (slice_from filenameIndex p)
    then (slice_to dotIndex p, slice_from dotIndex p)
    else (p, EmptyString)
  else (p, EmptyString).

End OsPath.

(** ** Exceptions, events and the monad of [main] *)

(** A raised instance of Python's [Exception] class: what the handlers
    [except Exception as e] of the script receive.  [exc_type] is
    [type(e).__name__] and [exc_msg] is [str(e)]. *)
Record Exc := mkExc { exc_type : string; exc_msg : string }.

(** The two client libraries, [taxii2client.v20] and [taxii2client.v21]. *)
Inductive Version := V20 | V21.

(** A collection as the client library presents it; the protocol makes
    the title a mandatory string. *)
Record Collection := mkCollection {
  coll_id : string;
  coll_title : string;
  coll_url : string
}.

(** [api_root.collections] and [server.api_roots] are properties that
    query the server when read, so reading them can raise. *)
Record ApiRoot := mkApiRoot { collections : Exc + list Collection }.

Record Server := mkServer {
  server_title : option string;
  api_roots : Exc + list ApiRoot
}.

(** The value stored in [collectionUrls] under a title:
    [{'id': collection.id, 'url': collection.url}]. *)
Record CollInfo := mkCollInfo { info_id : string; info_url : string }.

(** A Python [dict] with string keys.  Iteration follows insertion
    order, and assigning to a key that is present replaces the value
    where the key already stands. *)
Definition dict (V : Type) : Type := list (string * V).

Fixpoint dict_set {V : Type} (k : string) (v : V) (d : dict V) : dict V :=
  match d with
  | [] => [(k, v)]
  | (k', v') :: r =>
      if String.eqb k' k then (k', v) :: r else (k', v') :: dict_set k v r
  end.

Fixpoint dict_get {V : Type} (k : string) (d : dict V) : option V :=
  match d with
  | [] => None
  | (k', v') :: r => if String.eqb k' k then Some v' else dict_get k r
  end.

Definition dict_keys {V : Type} (d : dict V) : list string := map fst d.

(** The parsed fields of a [taxii|...] specifier (lines 170-182); every
    one starts as [None]. *)
Record ConnInfo := mkConnInfo {
  taxiiVersion : option string;
  taxiiDisoveryURL : option string;
  taxiiCollectionName : option string;
  taxiiUsername : option string;
  taxiiPassword : option string
}.

(** The parsed command line.  [nargs='*'] with [default=None] gives
    [None] when the flag is absent and a (possibly empty) list when it is
    present. *)
Record Args := mkArgs {
  notice : bool;
  cif : bool;
  input : option (list string);
  inputFile : option (list string);
  output : option string
}.

(** ** Pure steps of [main] *)

(** [d.setdefault(k, v)]: the value under [k] when there is one,
    otherwise [v], which is then stored under [k]. *)
Definition setdefault (k v : string) (d : gmap string string)
  : string * gmap string string :=
  match d !! k with
  | Some v' => (v', d)
  | None => (v, <[k := v]> d)
  end.

(** Line 148, the comprehension
    [[seenInput.setdefault(x, x) for x in args.input if x not in seenInput]]:
    the filter and the call share the dictionary [seenInput]. *)
Fixpoint dedup_from (seenInput : gmap string string) (l : list string)
  : list string :=
  match l with
  | [] => []
  | x :: r =>
      if decide (is_Some (seenInput !! x)) then dedup_from seenInput r
      else
        let (y, seenInput') := setdefault x x seenInput in
        y :: dedup_from seenInput' r
  end.

(** Lines 147-148, starting from [seenInput = {}]. *)
Definition deduplicate (l : list string) : list string := dedup_from ∅ l.

(** Lines 170-182: the five variables assigned from [taxiiConnInfo]. *)
Definition conn_fields (taxiiConnInfo : list string) : ConnInfo :=
  let n := length taxiiConnInfo in
  let '(v, u, c) :=
    if (3 <=? n)%nat
    then (taxiiConnInfo !! 0%nat, taxiiConnInfo !! 1%nat, taxiiConnInfo !! 2%nat)
    else (None, None, None) in
  let user := if (4 <=? n)%nat then taxiiConnInfo !! 3%nat else None in
  let pw := if (5 <=? n)%nat then taxiiConnInfo !! 4%nat else None in
  mkConnInfo v u c user pw.

(** Lines 196-198: the test that selects a collection, [lower] being
    [str.lower]. *)
Definition collection_matches (lower : string -> string)
  (taxiiCollectionName : string) (c : Collection) : bool :=
  String.eqb taxiiCollectionName "*"
  || String.eqb (lower (coll_title c)) (lower taxiiCollectionName).

(** Whether the collection [c] is selected for the requested name and
    stored under the key [t]. *)
Definition selected (lower : string -> string) (name t : string)
  (c : Collection) : Prop :=
  collection_matches lower name c = true /\ coll_title c = t.

#[global] Instance selected_dec lower name t c :
  Decision (selected lower name t c).
Proof. unfold selected. apply _. Defined.

(** Lines 199-202: the assignment [collectionUrls[collection.title] = ...]
    under the test above. *)
Definition collection_info (c : Collection) : CollInfo :=
  mkCollInfo (coll_id c) (coll_url c).

Definition match_collection (lower : string -> string)
  (taxiiCollectionName : string)
  (collectionUrls : dict CollInfo) (c : Collection) : dict CollInfo :=
  if collection_matches lower taxiiCollectionName c
  then dict_set (coll_title c) (collection_info c) collectionUrls
  else collectionUrls.

(** Line 157: [os.path.splitext(os.path.basename(inarg))[0]]. *)
Definition file_source (inarg : string) : string :=
  fst (OsPath.splitext (OsPath.basename inarg)).

(** Line 228:
    [':'.join([x for x in [server.title, title] if x is not None])]. *)
Definition envelope_source (server_title title : option string) : string :=
  PyStr.join ":" (omap id [server_title; title]).

(** How an f-string renders a value that may be [None]. *)
Definition fmt (o : option string) : string :=
  match o with
  | Some s => s
  | None => "None"
  end.

(** Lines 144 and 235: [f"{type(e).__name__} for '{arg}': {e}"]. *)
Definition msg_for (arg : string) (e : Exc) : string :=
  exc_type e +:+ " for '" +:+ arg +:+ "': " +:+ exc_msg e.

(** Line 232. *)
Definition msg_for_collection (title : string) (e : Exc) : string :=
  exc_type e +:+ " for object of collection '" +:+ title +:+ "': " +:+ exc_msg e.

(** Line 142. *)
Definition msg_not_found (infileArg : string) : string :=
  "File '" +:+ infileArg +:+ "' not found".

(** Line 190: [Exception(f'Unsupported TAXII version "{taxiiVersion}"')]. *)
Definition unsupported_version (taxiiVersion : option string) : Exc :=
  mkExc "Exception"
    ("Unsupported TAXII version " +:+ PyStr.dquote +:+ fmt taxiiVersion +:+ PyStr.dquote).

(** Iterating over [None] (line 122 when [args.inputFile] is [None]). *)
Definition none_not_iterable : Exc :=
  mkExc "TypeError" "'NoneType' object is not iterable".

(** Calling [.lower()] on [None] (line 197 when the name is [None]). *)
Definition none_has_no_lower : Exc :=
  mkExc "AttributeError" "'NoneType' object has no attribute 'lower'".

Section Pipeline.

(** One page of indicator objects, as [as_pages] yields it. *)
Variable Envelope : Type.

(** What is handed to the converter: an open input file or an envelope. *)
Inductive RetrievedUnit :=
| FromFile (path : string)
| FromEnvelope (env : Envelope).

(** The observable actions of a run.  [LogWarning] is a call of
    [logging.warning] (whether the record is printed depends on the
    configured level); the calls of [logging.info] and [logging.debug]
    are not recorded. *)
Inductive Event :=
| LogWarning (msg : string)
| OpenInput (path : string)
| ConnectServer (v : Version) (url user password : option string)
| ConnectCollection (v : Version) (url : string) (user password : option string)
| CallProcessSTIX (u : RetrievedUnit) (source : string).

(** The paged retrieval of one collection: the envelopes the generator
    yields, then possibly an exception raised while fetching the next
    page. *)
Definition Pages : Type := list Envelope * option Exc.

(** The outside world.  Every call either returns or raises, and the
    world is taken as fixed during a run: a call answers by its arguments
    alone. *)
Record World := mkWorld {
  (** [str.lower]: the lower-case form of a text by the Unicode tables *)
  str_lower : string -> string;
  (** [os.path.isfile] *)
  isfile : string -> bool;
  (** [open(inarg)] *)
  open_input : string -> Exc + unit;
  (** [open(f).read().splitlines()] *)
  read_lines : string -> Exc + list string;
  (** lines 131-139: download to a temporary file and read its lines;
      [None] when nothing was downloaded *)
  download_lines : string -> Exc + option (list string);
  (** [stix_zeek_utils.base64_decode_if_prefixed] *)
  base64_decode_if_prefixed : string -> Exc + string;
  (** [TaxiiServer_v20] / [TaxiiServer_v21] *)
  TaxiiServer : Version -> option string -> option string -> option string -> Exc + Server;
  (** [TaxiiCollection_v20] / [TaxiiCollection_v21], with the pages that
      [as_pages(collection.get_objects, ...)] will then yield *)
  TaxiiCollection : Version -> string -> option string -> option string -> Exc + Pages;
  (** [zeekPrinter.ProcessSTIX(unit, source=...)] *)
  ProcessSTIX : RetrievedUnit -> string -> Exc + unit;
  (** [open(args.output, 'w')] *)
  open_output : string -> Exc + unit;
  (** closing the output file when the [with] block of line 118 is left *)
  close_output : string -> Exc + unit;
  (** [stix_zeek_utils.STIXParserZeekPrinter(notice, cif, ...)] *)
  STIXParserZeekPrinter : bool -> bool -> Exc + unit
}.

(** A computation: the events so far, and a value or a raised exception. *)
Definition M (A : Type) : Type := list Event * (Exc + A).

Definition ret {A : Type} (a : A) : M A := ([], inr a).

Definition raise {A : Type} (e : Exc) : M A := ([], inl e).

Definition emit (ev : Event) : M unit := ([ev], inr tt).

Definition lift {A : Type} (r : Exc + A) : M A := ([], r).

Definition bind {A B : Type} (m : M A) (k : A -> M B) : M B :=
  match m with
  | (t, inl e) => (t, inl e)
  | (t, inr a) => let (t', r) := k a in (t ++ t', r)
  end.

(** [try: m  except Exception as e: h e] *)
Definition try_except {A : Type} (m : M A) (h : Exc -> M A) : M A :=
  match m with
  | (t, inl e) => let (t', r) := h e in (t ++ t', r)
  | (t, inr a) => (t, inr a)
  end.

Notation "'do' x <- m ; k" := (bind m (fun x => k))
  (at level 10, x name, m at level 100, k at level 200).

(** [for x in l: body x] *)
Fixpoint for_each {A : Type} (l : list A) (body : A -> M unit) : M unit :=
  match l with
  | [] => ret tt
  | x :: r => do _ <- body x; for_each r body
  end.

Definition trace {A : Type} (m : M A) : list Event := fst m.
Definition outcome {A : Type} (m : M A) : Exc + A := snd m.

(** ** The body of [main] *)

Variable W : World.

(** One call of the converter. *)
Definition process_stix (u : RetrievedUnit) (source : string) : M unit :=
  do _ <- emit (CallProcessSTIX u source);
  lift (ProcessSTIX W u source).

(** Line 169: the comprehension decoding the fields one after the other. *)
Fixpoint decode_fields (fields : list string) : Exc + list string :=
  match fields with
  | [] => inr []
  | x :: r =>
      match base64_decode_if_prefixed W x with
      | inl e => inl e
      | inr y =>
          match decode_fields r with
          | inl e => inl e
          | inr ys => inr (y :: ys)
          end
      end
  end.

(** Lines 169-182. *)
Definition parse_conn_info (inarg : string) : Exc + ConnInfo :=
  match decode_fields (tail (PyStr.split "|" inarg)) with
  | inl e => inl e
  | inr taxiiConnInfo => inr (conn_fields taxiiConnInfo)
  end.

(** Lines 185-190. *)
Definition connect_server (ci : ConnInfo) : M Server :=
  let connect v :=
    do _ <- emit (ConnectServer v (taxiiDisoveryURL ci) (taxiiUsername ci)
                    (taxiiPassword ci));
    lift (TaxiiServer W v (taxiiDisoveryURL ci) (taxiiUsername ci) (taxiiPassword ci)) in
  if decide (taxiiVersion ci = Some "2.0") then connect V20
  else if decide (taxiiVersion ci = Some "2.1") then connect V21
  else raise (unsupported_version (taxiiVersion ci)).

(** Lines 195-202, the inner loop.  With [taxiiCollectionName] being
    [None] the comparison with ['*'] is false and [.lower()] raises. *)
Fixpoint match_collections (taxiiCollectionName : option string)
  (cs : list Collection) (collectionUrls : dict CollInfo)
  : Exc + dict CollInfo :=
  match cs with
  | [] => inr collectionUrls
  | c :: r =>
      match taxiiCollectionName with
      | None => inl none_has_no_lower
      | Some name =>
          match_collections taxiiCollectionName r
            (match_collection (str_lower W) name collectionUrls c)
      end
  end.

(** Lines 194-202, the outer loop. *)
Fixpoint walk_api_roots (taxiiCollectionName : option string)
  (roots : list ApiRoot) (collectionUrls : dict CollInfo)
  : Exc + dict CollInfo :=
  match roots with
  | [] => inr collectionUrls
  | api_root :: r =>
      match collections api_root with
      | inl e => inl e
      | inr cs =>
          match match_collections taxiiCollectionName cs collectionUrls with
          | inl e => inl e
          | inr collectionUrls' => walk_api_roots taxiiCollectionName r collectionUrls'
          end
      end
  end.

(** Lines 193-202. *)
Definition collect_collection_urls (taxiiCollectionName : option string)
  (server : Server) : Exc + dict CollInfo :=
  match api_roots server with
  | inl e => inl e
  | inr roots => walk_api_roots taxiiCollectionName roots []
  end.

(** Lines 208 and 220: the library used past the server connection. *)
Definition client_version (ci : ConnInfo) : Version :=
  if decide (taxiiVersion ci = Some "2.1") then V21 else V20.

(** Lines 214-229: the loop over the pages of one collection. *)
Definition page_loop (source : string) (pages : Pages) : M unit :=
  do _ <- for_each (fst pages)
            (fun envelope => process_stix (FromEnvelope envelope) source);
  match snd pages with
  | Some e => raise e
  | None => ret tt
  end.

(** The warning one collection leaves behind (line 232), if its paging
    or the conversion of one of its pages raised. *)
Definition collection_warning (server : Server) (title : string) (pages : Pages)
  : list Event :=
  match outcome (page_loop (envelope_source (server_title server) (Some title)) pages) with
  | inl e => [LogWarning (msg_for_collection title e)]
  | inr _ => []
  end.

(** Lines 205-232: one round of the loop over [collectionUrls.items()]. *)
Definition retrieve_collection (ci : ConnInfo) (server : Server)
  (item : string * CollInfo) : M unit :=
  let (title, info) := item in
  do _ <- emit (ConnectCollection (client_version ci) (info_url info)
                  (taxiiUsername ci) (taxiiPassword ci));
  do pages <- lift (TaxiiCollection W (client_version ci) (info_url info)
                      (taxiiUsername ci) (taxiiPassword ci));
  try_except
    (page_loop (envelope_source (server_title server) (Some title)) pages)
    (fun e => emit (LogWarning (msg_for_collection title e))).

(** Lines 169-232: a specifier that names a TAXII server. *)
Definition process_taxii (inarg : string) : M unit :=
  do ci <- lift (parse_conn_info inarg);
  do server <- connect_server ci;
  do collectionUrls <- lift (collect_collection_urls (taxiiCollectionName ci) server);
  for_each collectionUrls (retrieve_collection ci server).

(** Lines 154-232: what stands inside the [try] of one specifier. *)
Definition process_body (inarg : string) : M unit :=
  if isfile W inarg then
    do _ <- emit (OpenInput inarg);
    do _ <- lift (open_input W inarg);
    process_stix (FromFile inarg) (file_source inarg)
  else if PyStr.startswith (str_lower W inarg) "taxii" then process_taxii inarg
  else ret tt.

(** The warning a specifier leaves behind: none when its body returns, the
    message of line 235 when it raises. *)
Definition specifier_warning (inarg : string) : list Event :=
  match outcome (process_body inarg) with
  | inl e => [LogWarning (msg_for inarg e)]
  | inr _ => []
  end.

(** Lines 153-235: one round of the loop over the specifiers. *)
Definition process_one (inarg : string) : M unit :=
  try_except (process_body inarg)
    (fun e => emit (LogWarning (msg_for inarg e))).

(** Lines 152-235. *)
Definition process_inputs (inputs : list string) : M unit :=
  for_each inputs process_one.

(** Lines 124-142: the lines one [--input-file] argument contributes. *)
Definition read_input_file (infileArg : string) : M (list string) :=
  if isfile W infileArg then lift (read_lines W infileArg)
  else if PyStr.contains "://" infileArg then
    do r <- lift (download_lines W infileArg);
    ret (default [] r)
  else
    do _ <- emit (LogWarning (msg_not_found infileArg));
    ret [].

(** Lines 122-144: the loop extending [args.input]. *)
Fixpoint resolve_input_files (refs : list string) (inputs : list string)
  : M (list string) :=
  match refs with
  | [] => ret inputs
  | infileArg :: r =>
      do extra <- try_except (read_input_file infileArg)
                    (fun e => do _ <- emit (LogWarning (msg_for infileArg e)); ret []);
      resolve_input_files r (inputs ++ extra)
  end.

(** Line 118, [with open(args.output, 'w') ... as outfile: body]: without
    an output path there is nothing to open or close.  With one, the file
    is opened, and closed when the block is left, whether [body] returned
    or raised; an exception raised by the close takes the place of the
    one under way. *)
Definition with_output (out : option string) (body : M unit) : M unit :=
  match out with
  | None => body
  | Some path =>
      do _ <- lift (open_output W path);
      match close_output W path with
      | inl e => (trace body, inl e)
      | inr _ => body
      end
  end.

(** Lines 115-235.  An exception in the outcome is one no handler
    caught: the interpreter prints it and the run ends. *)
Definition main (args : Args) : M unit :=
  let inputs := default [] (input args) in
  with_output (output args)
    (do _ <- lift (STIXParserZeekPrinter W (notice args) (cif args));
     match inputFile args with
     | None => raise none_not_iterable
     | Some refs =>
         do inputs' <- resolve_input_files refs inputs;
         process_inputs (deduplicate inputs')
     end).

End Pipeline.

Arguments FromFile {Envelope} path.
Arguments FromEnvelope {Envelope} env.
Arguments LogWarning {Envelope} msg.
Arguments OpenInput {Envelope} path.
Arguments ConnectServer {Envelope} v url user password.
Arguments ConnectCollection {Envelope} v url user password.
Arguments CallProcessSTIX {Envelope} u source.
Arguments Pages Envelope : clear implicits.
Arguments M Envelope A : clear implicits.
Arguments ret {Envelope A} a.
Arguments raise {Envelope A} e.
Arguments emit {Envelope} ev.
Arguments lift {Envelope A} r.
Arguments bind {Envelope A B} m k.
Arguments try_except {Envelope A} m h.
Arguments for_each {Envelope A} l body.
Arguments trace {Envelope A} m.
Arguments outcome {Envelope A} m.
Arguments str_lower {Envelope} w _.
Arguments isfile {Envelope} w _.
Arguments open_input {Envelope} w _.
Arguments read_lines {Envelope} w _.
Arguments download_lines {Envelope} w _.
Arguments base64_decode_if_prefixed {Envelope} w _.
Arguments TaxiiServer {Envelope} w _ _ _ _.
Arguments TaxiiCollection {Envelope} w _ _ _ _.
Arguments ProcessSTIX {Envelope} w _ _.
Arguments open_output {Envelope} w _.
Arguments close_output {Envelope} w _.
Arguments STIXParserZeekPrinter {Envelope} w _ _.
Arguments process_stix {Envelope} W u source.
Arguments decode_fields {Envelope} W fields.
Arguments parse_conn_info {Envelope} W inarg.
Arguments connect_server {Envelope} W ci.
Arguments page_loop {Envelope} W source pages.
Arguments retrieve_collection {Envelope} W ci server item.
Arguments process_taxii {Envelope} W inarg.
Arguments process_body {Envelope} W inarg.
Arguments process_one {Envelope} W inarg.
Arguments process_inputs {Envelope} W inputs.
Arguments read_input_file {Envelope} W infileArg.
Arguments resolve_input_files {Envelope} W refs inputs.
Arguments main {Envelope} W args.
Arguments with_output {Envelope} W out body.
Arguments match_collections {Envelope} W taxiiCollectionName cs collectionUrls.
Arguments walk_api_roots {Envelope} W taxiiCollectionName roots collectionUrls.
Arguments collect_collection_urls {Envelope} W taxiiCollectionName server.
Arguments specifier_warning {Envelope} W inarg.
Arguments collection_warning {Envelope} W server title pages.

Notation "'do' x <- m ; k" := (bind m (fun x => k))
  (at level 10, x name, m at level 100, k at level 200).

(** On ASCII text [str.lower] only turns the letters [A]-[Z] into
    [a]-[z]. *)
Definition folds_ascii {Envelope : Type} (W : World Envelope) : Prop :=
  forall s, PyStr.is_ascii s = true -> str_lower W s = PyStr.ascii_lower s.

(** ** A sample world

    Envelopes are numbered and all text is ASCII, where [str.lower] is
    [PyStr.ascii_lower].  Two STIX files exist; a third path exists
    but cannot be opened.  One TAXII server answers, with two API roots
    and four collections, two of them titled alike; paging the collection
    at [coll/a] fails after one page. *)

Module Sample.

Definition a_json : string := "/feeds/a.json".
Definition c_json : string := "/feeds/intel.v2/c.stix.json".
Definition locked : string := "/feeds/locked.json".
Definition disc : string := "https://x/disc".

Definition denied : Exc := mkExc "PermissionError" "denied".
Definition http500 : Exc := mkExc "HTTPError" "500".

Definition server : Server :=
  mkServer (Some "srv")
    (inr [ mkApiRoot (inr [ mkCollection "1" "Alpha" "coll/a";
                            mkCollection "2" "Beta" "coll/b" ]);
           mkApiRoot (inr [ mkCollection "3" "alpha" "coll/c";
                            mkCollection "4" "Beta" "coll/d" ]) ]).

Definition world : World nat :=
  {| str_lower := PyStr.ascii_lower;
     isfile p := bool_decide (p ∈ [a_json; c_json; locked]);
     open_input p :=
       if String.eqb p locked then inl denied
       else inr tt;
     read_lines p := inr [];
     download_lines u := inr None;
     base64_decode_if_prefixed s :=
       if PyStr.startswith s "base64:" then inl (mkExc "Error" "padding")
       else inr s;
     TaxiiServer v url user pw :=
       if decide (url = Some disc) then inr server
       else inl (mkExc "ConnectionError" "unreachable");
     TaxiiCollection v url user pw :=
       if String.eqb url "coll/a"
       then inr ([7], Some http500)
       else if String.eqb url "coll/d" then inr ([8; 9], None)
       else inr ([1; 2], None);
     ProcessSTIX u src := inr tt;
     open_output p := inr tt;
     close_output p := inr tt;
     STIXParserZeekPrinter n c := inr tt |}.

End Sample.

(** ** Verbosity *)

(** The numeric levels of Python's [logging] module. *)
Module Logging.

Definition CRITICAL : Z := 50.
Definition ERROR : Z := 40.
Definition WARNING : Z := 30.
Definition INFO : Z := 20.
Definition DEBUG : Z := 10.

End Logging.

(** Line 104:
    [logging.CRITICAL - (10 * args.verbose) if args.verbose > 0 else 0],
    the level handed to [logging.basicConfig]. *)
Definition log_level (verbose : Z) : Z :=
  if (0 <? verbose)%Z then (Logging.CRITICAL - 10 * verbose)%Z else 0%Z.

(** Lines 112-113: whether [sys.tracebacklimit] is set to [0]. *)
Definition hides_tracebacks (verbose : Z) : bool :=
  (Logging.DEBUG <? log_level verbose)%Z.

(** ** What one list-file reference and one event amount to *)

(** The lines one [--input-file] argument adds to [args.input]: those it
    read, or none when reading it raised. *)
Definition ref_lines {Envelope : Type} (W : World Envelope) (infileArg : string)
  : list string :=
  match outcome (read_input_file W infileArg) with
  | inr lines => lines
  | inl _ => []
  end.

(** The warning of line 144, when reading the reference raised. *)
Definition ref_warning {Envelope : Type} (W : World Envelope) (infileArg : string)
  : list (Event Envelope) :=
  match outcome (read_input_file W infileArg) with
  | inl e => [LogWarning (msg_for infileArg e)]
  | inr _ => []
  end.

(** Is the event the hand-over of the local file [path] to the converter? *)
Definition is_file_call {Envelope : Type} (path : string) (ev : Event Envelope)
  : bool :=
  match ev with
  | CallProcessSTIX (FromFile q) _ => String.eqb q path
  | _ => false
  end.

(** The hand-over of one envelope to the converter under a label. *)
Definition hand_over {Envelope : Type} (source : string) (envelope : Envelope)
  : Event Envelope :=
  CallProcessSTIX (FromEnvelope envelope) source.

(** Is the event a connection attempt to a server, to a collection? *)
Definition is_server_connect {Envelope : Type} (ev : Event Envelope) : bool :=
  match ev with
  | ConnectServer _ _ _ _ => true
  | _ => false
  end.

Definition is_collection_connect {Envelope : Type} (ev : Event Envelope) : bool :=
  match ev with
  | ConnectCollection _ _ _ _ => true
  | _ => false
  end.

(** Events that do not touch a local input file. *)
Definition off_disk {Envelope : Type} (ev : Event Envelope) : Prop :=
  match ev with
  | OpenInput _ => False
  | CallProcessSTIX (FromFile _) _ => False
  | _ => True
  end.

(** Events that do not touch the network. *)
Definition off_line {Envelope : Type} (ev : Event Envelope) : Prop :=
  match ev with
  | ConnectServer _ _ _ _ => False
  | ConnectCollection _ _ _ _ => False
  | CallProcessSTIX (FromEnvelope _) _ => False
  | _ => True
  end.

(** A connection event agrees with the parsed fields [ci]: the client
    library is the one of the version, and the credentials (and, for the
    server, the discovery URL) are the parsed ones. *)
Definition uses_conn {Envelope : Type} (ci : ConnInfo) (ev : Event Envelope)
  : Prop :=
  match ev with
  | ConnectServer v url user pw =>
      v = client_version ci /\ url = taxiiDisoveryURL ci /\
      user = taxiiUsername ci /\ pw = taxiiPassword ci
  | ConnectCollection v _ user pw =>
      v = client_version ci /\ user = taxiiUsername ci /\ pw = taxiiPassword ci
  | _ => True
  end.

(** The collection passes the test of lines 196-198. *)
Definition matching (lower : string -> string) (name : string)
  (c : Collection) : Prop :=
  collection_matches lower name c = true.

#[global] Instance matching_dec lower name c : Decision (matching lower name c).
Proof. unfold matching. apply _. Defined.

(** A field that holds no [|]. *)
Definition pipe_free (s : string) : Prop := PyStr.has_char "|" s = false.

(** A field that the decoder of line 169 returns as it is. *)
Definition plain {Envelope : Type} (W : World Envelope) (s : string) : Prop :=
  base64_decode_if_prefixed W s = inr s.

(** The version field is one of the two the script connects with. *)
Definition supported (ci : ConnInfo) : Prop :=
  taxiiVersion ci = Some "2.0" \/ taxiiVersion ci = Some "2.1".

(** The connection to the server that the fields [ci] lead to (lines
    185-188), and the one to a collection (lines 206-210). *)
Definition server_event {Envelope : Type} (ci : ConnInfo) : Event Envelope :=
  ConnectServer (client_version ci) (taxiiDisoveryURL ci)
    (taxiiUsername ci) (taxiiPassword ci).

Definition collection_event {Envelope : Type} (ci : ConnInfo) (info : CollInfo)
  : Event Envelope :=
  ConnectCollection (client_version ci) (info_url info)
    (taxiiUsername ci) (taxiiPassword ci).

(** ** A second sample world

    A list file exists and names three specifiers, one of them twice.  The
    server at [https://y/disc] fails while its second API root is read; the
    one at [https://z/disc] lists three collections, the second of which
    cannot be connected to.  The converter rejects envelope [2], and the
    output file [/ro/out] cannot be created. *)

Module Sample2.

Definition a_json : string := "/feeds/a.json".
Definition lists_txt : string := "lists.txt".
Definition y_disc : string := "https://y/disc".
Definition z_disc : string := "https://z/disc".

Definition timeout : Exc := mkExc "ReadTimeout" "timed out".
Definition refused : Exc := mkExc "ConnectionError" "refused".
Definition bad_url : Exc := mkExc "InvalidArgumentsError" "bad url".
Definition malformed : Exc := mkExc "KeyError" "'objects'".
Definition read_only : Exc := mkExc "PermissionError" "read-only".

(** The fields of [taxii|2.1|https://y/disc|*] and of
    [taxii|2.0|https://z/disc|name]. *)
Definition ci_y : ConnInfo :=
  mkConnInfo (Some "2.1") (Some y_disc) (Some "*") None None.

Definition ci_z (name : string) : ConnInfo :=
  mkConnInfo (Some "2.0") (Some z_disc) (Some name) None None.

Definition server_y : Server :=
  mkServer (Some "why")
    (inr [ mkApiRoot (inr [ mkCollection "1" "Alpha" "y/a" ]);
           mkApiRoot (inl timeout) ]).

Definition server_z : Server :=
  mkServer None
    (inr [ mkApiRoot (inr [ mkCollection "1" "One" "z/1";
                            mkCollection "2" "Two" "z/bad";
                            mkCollection "3" "Three" "z/3" ]) ]).

Definition world : World nat :=
  {| str_lower := PyStr.ascii_lower;
     isfile p := bool_decide (p ∈ [a_json; lists_txt]);
     open_input p := inr tt;
     read_lines p :=
       if String.eqb p lists_txt
       then inr ["b.json"; a_json; "taxii|2.0|https://z/disc|one"; "b.json"]
       else inl (mkExc "UnicodeDecodeError" "invalid start byte");
     download_lines u := inr None;
     base64_decode_if_prefixed s := inr s;
     TaxiiServer v url user pw :=
       if decide (url = Some y_disc) then inr server_y
       else if decide (url = Some z_disc) then inr server_z
       else inl refused;
     TaxiiCollection v url user pw :=
       if String.eqb url "z/bad" then inl bad_url
       else inr ([1; 2; 3], None);
     ProcessSTIX u src :=
       match u with
       | FromEnvelope 2 => inl malformed
       | _ => inr tt
       end;
     open_output p := if String.eqb p "/ro/out" then inl read_only else inr tt;
     close_output p := inr tt;
     STIXParserZeekPrinter n c := inr tt |}.

End Sample2.

(** * Properties *)

(** ** The monad *)

Section MonadFacts.
Context {Envelope : Type}.
Implicit Types (t : list (Event Envelope)).

Lemma bind_ret_l {A B} (a : A) (k : A -> M Envelope B) : bind (ret a) k = k a.
Proof. unfold bind, ret. by destruct (k a). Qed.

Lemma bind_emit {B} ev (k : unit -> M Envelope B) :
  bind (emit ev) k = (ev :: trace (k tt), outcome (k tt)).
Proof. unfold bind, emit. by destruct (k tt). Qed.

Lemma bind_lift_inr {A B} (a : A) (k : A -> M Envelope B) :
  bind (lift (inr a)) k = k a.
Proof. unfold bind, lift. by destruct (k a). Qed.

Lemma bind_lift_inl {A B} e (k : A -> M Envelope B) :
  bind (lift (inl e)) k = ([], inl e).
Proof. done. Qed.

Lemma bind_raise {A B} e (k : A -> M Envelope B) :
  bind (raise e) k = ([], inl e).
Proof. done. Qed.

Lemma bind_ok {A B} (m : M Envelope A) (k : A -> M Envelope B) a :
  outcome m = inr a ->
  bind m k = (trace m ++ trace (k a), outcome (k a)).
Proof. destruct m as [t r]; simpl. intros ->. by destruct (k a). Qed.

Lemma bind_fail {A B} (m : M Envelope A) (k : A -> M Envelope B) e :
  outcome m = inl e ->
  bind m k = (trace m, inl e).
Proof. destruct m as [t r]; simpl. by intros ->. Qed.

Lemma try_except_ok {A} (m : M Envelope A) h a :
  outcome m = inr a -> try_except m h = m.
Proof. destruct m as [t r]; simpl. by intros ->. Qed.

Lemma try_except_fail {A} (m : M Envelope A) h e :
  outcome m = inl e ->
  try_except m h = (trace m ++ trace (h e), outcome (h e)).
Proof. destruct m as [t r]; simpl. intros ->. by destruct (h e). Qed.

(** A loop whose body never lets an exception out runs every round. *)
Lemma for_each_total {A} (l : list A) (body : A -> M Envelope unit) :
  (forall x, x ∈ l -> outcome (body x) = inr tt) ->
  for_each l body = (flat_map (fun x => trace (body x)) l, inr tt).
Proof.
  induction l as [|x l IH]; intros Hok; [done|].
  cbn [for_each flat_map].
  rewrite (bind_ok _ _ tt) by (apply Hok; left).
  rewrite IH; [done|]. intros y Hy. apply Hok. by right.
Qed.

Lemma for_each_app {A} (l1 l2 : list A) (body : A -> M Envelope unit) :
  for_each (l1 ++ l2) body = do _ <- for_each l1 body; for_each l2 body.
Proof.
  induction l1 as [|x l1 IH]; cbn [for_each app].
  - by rewrite bind_ret_l.
  - rewrite IH. destruct (body x) as [t [e|[]]]; [done|]. simpl.
    destruct (for_each l1 body) as [t1 [e1|[]]]; [done|]. simpl.
    destruct (for_each l2 body) as [t2 r2]. by rewrite app_assoc.
Qed.

End MonadFacts.

(** ** The loop over the specifiers *)

Section SpecifierLoop.
Context {Envelope : Type} (W : World Envelope).

Lemma process_one_unfold inarg :
  process_one W inarg
  = (trace (process_body W inarg) ++ specifier_warning W inarg, inr tt).
Proof.
  unfold process_one, specifier_warning.
  destruct (process_body W inarg) as [t [e|[]]]; simpl; [done|].
  by rewrite app_nil_r.
Qed.

Lemma process_one_returns inarg : outcome (process_one W inarg) = inr tt.
Proof. by rewrite process_one_unfold. Qed.

Lemma process_inputs_unfold inputs :
  process_inputs W inputs
  = (flat_map (fun x => trace (process_one W x)) inputs, inr tt).
Proof.
  unfold process_inputs. apply for_each_total.
  intros x _. apply process_one_returns.
Qed.

Lemma process_inputs_cons inarg rest :
  process_inputs W (inarg :: rest)
  = (trace (process_one W inarg) ++ trace (process_inputs W rest), inr tt).
Proof. by rewrite !process_inputs_unfold. Qed.

Lemma process_inputs_split pre post :
  process_inputs W (pre ++ post)
  = (trace (process_inputs W pre) ++ trace (process_inputs W post), inr tt).
Proof.
  rewrite !process_inputs_unfold. cbn [trace fst].
  by rewrite flat_map_app.
Qed.

Lemma process_body_file inarg :
  isfile W inarg = true ->
  open_input W inarg = inr tt ->
  process_body W inarg
  = ([OpenInput inarg; CallProcessSTIX (FromFile inarg) (file_source inarg)],
     ProcessSTIX W (FromFile inarg) (file_source inarg)).
Proof.
  intros Hf Ho. unfold process_body, process_stix. rewrite Hf, Ho.
  rewrite bind_emit, bind_lift_inr, bind_emit. done.
Qed.

Lemma trace_process_inputs_elem inputs ev :
  ev ∈ trace (process_inputs W inputs)
  <-> exists x, x ∈ inputs /\ ev ∈ trace (process_one W x).
Proof.
  rewrite process_inputs_unfold. cbn [trace fst].
  rewrite list_elem_of_In, in_flat_map.
  split; intros (x & Hx & Hev); exists x;
    by rewrite ?list_elem_of_In in *.
Qed.

(** C1.  The loop over the specifiers never lets an exception out: each
    specifier of a batch, whatever happened to the ones before it, runs
    its body (retrieval and hand-over to the converter), and a body that
    raises adds one warning naming the specifier and the exception type.
    In a batch of three where the second raises, the first and the third
    are processed as they would be alone; and a readable local file of
    the batch is always handed to the converter. *)
Theorem specifier_failure_is_isolated :
  (forall pre inarg post,
     process_inputs W (pre ++ inarg :: post)
     = (trace (process_inputs W pre)
        ++ trace (process_body W inarg) ++ specifier_warning W inarg
        ++ trace (process_inputs W post),
        inr tt)) /\
  (forall a b c e,
     outcome (process_body W b) = inl e ->
     process_inputs W [a; b; c]
     = (trace (process_one W a)
        ++ trace (process_body W b) ++ [LogWarning (msg_for b e)]
        ++ trace (process_one W c),
        inr tt)) /\
  (forall inputs inarg,
     inarg ∈ inputs ->
     isfile W inarg = true ->
     open_input W inarg = inr tt ->
     CallProcessSTIX (FromFile inarg) (file_source inarg)
       ∈ trace (process_inputs W inputs)).
Proof.
  split; [|split].
  - intros pre inarg post.
    rewrite process_inputs_split, process_inputs_cons, process_one_unfold.
    cbn [trace fst]. by rewrite <- ?app_assoc.
  - intros a b c e Hb.
    rewrite !process_inputs_unfold. cbn [flat_map trace fst].
    rewrite (process_one_unfold b). unfold specifier_warning. rewrite Hb.
    unfold trace at 2. cbn [fst]. by rewrite app_nil_r, <- ?app_assoc.
  - intros inputs inarg Hin Hf Ho.
    apply trace_process_inputs_elem. exists inarg. split; [done|].
    rewrite process_one_unfold, (process_body_file _ Hf Ho).
    cbn [trace fst]. set_solver.
Qed.

(** A specifier that is no existing file and does not start with the
    marker falls through the [if]/[elif] of lines 156-159. *)
Lemma process_body_unrecognized inarg :
  isfile W inarg = false ->
  PyStr.startswith (str_lower W inarg) "taxii" = false ->
  process_body W inarg = ([], inr tt).
Proof. intros Hf Hp. unfold process_body. by rewrite Hf, Hp. Qed.

(** C9 (the code's behaviour).  A specifier that is neither an existing
    file nor starts with [taxii] is skipped and the batch goes on, but no
    call of [logging.warning], nor any other action, happens for it. *)
Theorem unrecognized_specifier_is_silent inarg rest :
  isfile W inarg = false ->
  PyStr.startswith (str_lower W inarg) "taxii" = false ->
  process_one W inarg = ([], inr tt) /\
  process_inputs W (inarg :: rest) = process_inputs W rest.
Proof.
  intros Hf Hp.
  assert (process_one W inarg = ([], inr tt)) as H1.
  { rewrite process_one_unfold. unfold specifier_warning.
    by rewrite (process_body_unrecognized _ Hf Hp). }
  split; [done|].
  rewrite process_inputs_cons, H1. cbn [trace fst app].
  by rewrite (process_inputs_unfold rest).
Qed.

(** C2 (the code's behaviour).  When [--input-file] is absent,
    [args.inputFile] is [None] and the loop header of line 122 raises
    outside every [try]: the run ends with an uncaught exception before
    any specifier is deduplicated or processed. *)
Theorem main_without_input_file_is_fatal n c i o :
  (exists e, main W (mkArgs n c i None o) = ([], inl e)) /\
  (STIXParserZeekPrinter W n c = inr tt ->
   main W (mkArgs n c i None None) = ([], inl none_not_iterable)).
Proof.
  unfold main, with_output. cbn [output notice cif inputFile input]. split.
  - assert (exists e,
              bind (lift (STIXParserZeekPrinter W n c))
                (fun _ => raise none_not_iterable)
              = (([], inl e) : M Envelope unit)) as [e0 ->].
    { destruct (STIXParserZeekPrinter W n c) as [e|[]]; [by exists e|].
      exists none_not_iterable. by rewrite bind_lift_inr. }
    destruct o as [path|]; [|by exists e0].
    destruct (open_output W path) as [e|[]]; [by exists e|].
    rewrite bind_lift_inr.
    destruct (close_output W path) as [e|[]]; [by exists e|by exists e0].
  - intros ->. by rewrite bind_lift_inr.
Qed.

End SpecifierLoop.

(** ** Specifiers naming a TAXII server *)

Section TaxiiSpecifier.
Context {Envelope : Type} (W : World Envelope).

Lemma decode_fields_length fields decoded :
  decode_fields W fields = inr decoded -> length decoded = length fields.
Proof.
  revert decoded. induction fields as [|x r IH]; intros decoded; simpl.
  - by intros [= <-].
  - destruct (base64_decode_if_prefixed W x); [done|].
    destruct (decode_fields W r) as [|ys]; [done|].
    intros [= <-]. simpl. f_equal. by apply IH.
Qed.

Lemma conn_fields_short fields :
  length fields < 3 -> conn_fields fields = mkConnInfo None None None None None.
Proof.
  intros Hlen. unfold conn_fields.
  destruct fields as [|a [|b [|c r]]]; simpl in *; try done. lia.
Qed.

Lemma process_body_taxii inarg :
  isfile W inarg = false ->
  PyStr.startswith (str_lower W inarg) "taxii" = true ->
  process_body W inarg = process_taxii W inarg.
Proof. intros Hf Hp. unfold process_body. by rewrite Hf, Hp. Qed.

Lemma connect_server_unsupported ci :
  taxiiVersion ci <> Some "2.0" ->
  taxiiVersion ci <> Some "2.1" ->
  connect_server W ci = raise (unsupported_version (taxiiVersion ci)).
Proof. intros H0 H1. unfold connect_server. by rewrite !decide_False. Qed.

(** A specifier whose parsed version is not a supported one raises
    before any connection and leaves one warning. *)
Lemma process_unsupported inarg ci :
  isfile W inarg = false ->
  PyStr.startswith (str_lower W inarg) "taxii" = true ->
  parse_conn_info W inarg = inr ci ->
  taxiiVersion ci <> Some "2.0" ->
  taxiiVersion ci <> Some "2.1" ->
  process_body W inarg = ([], inl (unsupported_version (taxiiVersion ci))) /\
  process_one W inarg
  = ([LogWarning (msg_for inarg (unsupported_version (taxiiVersion ci)))], inr tt).
Proof.
  intros Hf Hp Hparse H0 H1.
  assert (process_body W inarg
          = ([], inl (unsupported_version (taxiiVersion ci)))) as Hbody.
  { rewrite (process_body_taxii _ Hf Hp). unfold process_taxii.
    rewrite Hparse, bind_lift_inr, (connect_server_unsupported _ H0 H1).
    apply bind_raise. }
  split; [done|].
  rewrite process_one_unfold. unfold specifier_warning. by rewrite Hbody.
Qed.

(** C6.  A TAXII specifier whose version field is neither [2.0] nor
    [2.1] raises the unsupported-version exception, which the handler of
    the specifier catches and logs; no server connection is attempted for
    it, and the rest of the batch is processed. *)
Theorem unsupported_version_is_skipped inarg ci v rest :
  isfile W inarg = false ->
  PyStr.startswith (str_lower W inarg) "taxii" = true ->
  parse_conn_info W inarg = inr ci ->
  taxiiVersion ci = Some v ->
  v <> "2.0" ->
  v <> "2.1" ->
  process_body W inarg = ([], inl (unsupported_version (Some v))) /\
  process_one W inarg
  = ([LogWarning (msg_for inarg (unsupported_version (Some v)))], inr tt) /\
  (forall ver url user pw,
     ConnectServer ver url user pw ∉ trace (process_one W inarg)) /\
  process_inputs W (inarg :: rest)
  = (LogWarning (msg_for inarg (unsupported_version (Some v)))
       :: trace (process_inputs W rest),
     inr tt).
Proof.
  intros Hf Hp Hparse Hv H0 H1.
  destruct (process_unsupported inarg ci Hf Hp Hparse) as [Hbody Hone];
    [congruence..|].
  rewrite Hv in Hbody, Hone.
  split; [done|]. split; [done|]. split.
  - intros ver url user pw. rewrite Hone. cbn [trace fst].
    by intros ?%list_elem_of_singleton.
  - by rewrite process_inputs_cons, Hone.
Qed.

(** C10 (as amended).  A specifier that is no existing file, starts with
    the marker and has fewer than three fields after it never reaches a
    connection: its processing ends in one exception, which is caught and
    logged, and the batch goes on.  When the fields present can be
    decoded, the version is still [None] and the exception is the
    unsupported-version one; when one of them cannot, it is the decoder's,
    raised before the version is looked at. *)
Theorem missing_fields_is_unsupported_version inarg rest :
  isfile W inarg = false ->
  PyStr.startswith (str_lower W inarg) "taxii" = true ->
  length (tail (PyStr.split "|" inarg)) < 3 ->
  (exists e,
     process_body W inarg = ([], inl e) /\
     process_inputs W (inarg :: rest)
     = (LogWarning (msg_for inarg e) :: trace (process_inputs W rest), inr tt)) /\
  (forall fields,
     decode_fields W (tail (PyStr.split "|" inarg)) = inr fields ->
     parse_conn_info W inarg = inr (mkConnInfo None None None None None) /\
     process_body W inarg = ([], inl (unsupported_version None)) /\
     process_inputs W (inarg :: rest)
     = (LogWarning (msg_for inarg (unsupported_version None))
          :: trace (process_inputs W rest),
        inr tt)) /\
  (forall e,
     decode_fields W (tail (PyStr.split "|" inarg)) = inl e ->
     process_body W inarg = ([], inl e) /\
     process_inputs W (inarg :: rest)
     = (LogWarning (msg_for inarg e) :: trace (process_inputs W rest), inr tt)).
Proof.
  intros Hf Hp Hlen.
  assert (forall fields,
            decode_fields W (tail (PyStr.split "|" inarg)) = inr fields ->
            parse_conn_info W inarg = inr (mkConnInfo None None None None None))
    as Hparse.
  { intros fields Hdec. unfold parse_conn_info. rewrite Hdec.
    f_equal. apply conn_fields_short.
    by rewrite (decode_fields_length _ _ Hdec). }
  assert (forall e, process_body W inarg = ([], inl e) ->
            process_inputs W (inarg :: rest)
            = (LogWarning (msg_for inarg e) :: trace (process_inputs W rest),
               inr tt)) as Hrest.
  { intros e He. rewrite process_inputs_cons, process_one_unfold.
    unfold specifier_warning. by rewrite He. }
  assert (forall e,
            decode_fields W (tail (PyStr.split "|" inarg)) = inl e ->
            process_body W inarg = ([], inl e)) as Hraise.
  { intros e Hdec. rewrite (process_body_taxii _ Hf Hp).
    unfold process_taxii, parse_conn_info. by rewrite Hdec. }
  split; [|split].
  - destruct (decode_fields W (tail (PyStr.split "|" inarg)))
      as [e|fields] eqn:Hdec.
    + exists e. by auto.
    + exists (unsupported_version None).
      destruct (process_unsupported inarg _ Hf Hp (Hparse _ eq_refl))
        as [Hbody _]; [done..|].
      by auto.
  - intros fields Hdec. split; [by eapply Hparse|].
    destruct (process_unsupported inarg _ Hf Hp (Hparse _ Hdec))
      as [Hbody _]; [done..|].
    by auto.
  - by auto.
Qed.

(** C4.  Of the fields of a connection string, the three after the marker
    are the version, the discovery URL and the collection name; with only
    those, user name and password stay [None]; a fifth field is the user
    name, and a sixth the password, each decoded. *)
Theorem credentials_are_optional_fields p v d c v' d' c' :
  base64_decode_if_prefixed W v = inr v' ->
  base64_decode_if_prefixed W d = inr d' ->
  base64_decode_if_prefixed W c = inr c' ->
  (forall inarg,
     PyStr.split "|" inarg = [p; v; d; c] ->
     parse_conn_info W inarg
     = inr (mkConnInfo (Some v') (Some d') (Some c') None None)) /\
  (forall inarg u u',
     PyStr.split "|" inarg = [p; v; d; c; u] ->
     base64_decode_if_prefixed W u = inr u' ->
     parse_conn_info W inarg
     = inr (mkConnInfo (Some v') (Some d') (Some c') (Some u') None)) /\
  (forall inarg u u' pw pw',
     PyStr.split "|" inarg = [p; v; d; c; u; pw] ->
     base64_decode_if_prefixed W u = inr u' ->
     base64_decode_if_prefixed W pw = inr pw' ->
     parse_conn_info W inarg
     = inr (mkConnInfo (Some v') (Some d') (Some c') (Some u') (Some pw'))).
Proof.
  intros Hv Hd Hc. unfold parse_conn_info. repeat split.
  - intros inarg ->. cbn [tail decode_fields]. by rewrite Hv, Hd, Hc.
  - intros inarg u u' -> Hu. cbn [tail decode_fields].
    by rewrite Hv, Hd, Hc, Hu.
  - intros inarg u u' pw pw' -> Hu Hpw. cbn [tail decode_fields].
    by rewrite Hv, Hd, Hc, Hu, Hpw.
Qed.

End TaxiiSpecifier.

(** ** Deduplication of the input sources *)

Section Deduplicate.
Implicit Types (seen : gmap string string) (l : list string).

Lemma dedup_from_seen seen x l :
  is_Some (seen !! x) -> dedup_from seen (x :: l) = dedup_from seen l.
Proof. intros Hx. cbn [dedup_from]. by rewrite decide_True. Qed.

Lemma dedup_from_new seen x l :
  seen !! x = None ->
  dedup_from seen (x :: l) = x :: dedup_from (<[x := x]> seen) l.
Proof.
  intros Hx. cbn [dedup_from]. rewrite decide_False.
  - unfold setdefault. by rewrite Hx.
  - rewrite Hx. by intros [? ?].
Qed.

Lemma elem_of_dedup_from seen l y :
  y ∈ dedup_from seen l <-> y ∈ l /\ seen !! y = None.
Proof.
  revert seen. induction l as [|x l IH]; intros seen.
  - cbn [dedup_from]. split; [by intros ?%elem_of_nil|by intros [?%elem_of_nil _]].
  - destruct (seen !! x) as [v|] eqn:Hx.
    + rewrite dedup_from_seen by eauto. rewrite IH, elem_of_cons.
      split; [by intros [? ?]; auto|].
      intros [[->|?] Hy]; [congruence|done].
    + rewrite dedup_from_new by done. rewrite !elem_of_cons, IH.
      split.
      * intros [->|[? Hy]]; [by auto|].
        split; [by auto|].
        destruct (decide (x = y)) as [->|Hne]; [done|].
        by rewrite lookup_insert_ne in Hy.
      * intros [[->|Hin] Hy]; [by left|].
        destruct (decide (x = y)) as [->|Hne]; [by left|].
        right. split; [done|]. by rewrite lookup_insert_ne.
Qed.

Lemma NoDup_dedup_from seen l : NoDup (dedup_from seen l).
Proof.
  revert seen. induction l as [|x l IH]; intros seen.
  - constructor.
  - destruct (seen !! x) as [v|] eqn:Hx.
    + rewrite dedup_from_seen by eauto. apply IH.
    + rewrite dedup_from_new by done. constructor; [|apply IH].
      rewrite elem_of_dedup_from, lookup_insert_eq. by intros [_ ?].
Qed.

(** Whatever follows [x] in the result is absent from the input before
    the occurrence of [x] that was kept. *)
Lemma dedup_from_split seen l r1 x r2 :
  dedup_from seen l = r1 ++ x :: r2 ->
  exists l1 l2, l = l1 ++ x :: l2 /\ forall y, y ∈ r2 -> y ∉ l1.
Proof.
  revert seen r1. induction l as [|a l IH]; intros seen r1 Heq.
  - cbn [dedup_from] in Heq. by destruct r1.
  - destruct (seen !! a) as [v|] eqn:Ha.
    + rewrite dedup_from_seen in Heq by eauto.
      destruct (IH _ _ Heq) as (l1 & l2 & -> & Hl1).
      exists (a :: l1), l2. split; [done|].
      intros y Hy. rewrite not_elem_of_cons. split; [|by auto].
      intros ->.
      assert (a ∈ dedup_from seen (l1 ++ x :: l2)) as Hin
        by (rewrite Heq; set_solver).
      apply elem_of_dedup_from in Hin as [_ Hin]. congruence.
    + rewrite dedup_from_new in Heq by done.
      destruct r1 as [|b r1]; simplify_eq/=.
      * exists [], l. split; [done|]. intros y _. apply not_elem_of_nil.
      * destruct (IH _ _ H0) as (l1 & l2 & -> & Hl1).
        exists (b :: l1), l2. split; [done|].
        intros y Hy. rewrite not_elem_of_cons. split; [|by auto].
        intros ->.
        assert (b ∈ dedup_from (<[b:=b]> seen) (l1 ++ x :: l2)) as Hin
          by (rewrite H0; set_solver).
        apply elem_of_dedup_from in Hin as [_ Hin].
        by rewrite lookup_insert_eq in Hin.
Qed.

(** C3.  The resolved list has no duplicates, holds exactly the strings
    of the input, and lists them by first occurrence: of two strings of
    the result, the earlier one occurs in the input before every
    occurrence of the later one.  The example of the specification
    resolves as it says. *)
Theorem deduplicate_keeps_first_occurrences :
  (forall l, NoDup (deduplicate l)) /\
  (forall l x, x ∈ deduplicate l <-> x ∈ l) /\
  (forall l i j x y,
     deduplicate l !! i = Some x ->
     deduplicate l !! j = Some y ->
     i < j ->
     exists p, l !! p = Some x /\ forall q, l !! q = Some y -> p < q) /\
  deduplicate ["a.json"; "a.json"; "b.json"] = ["a.json"; "b.json"].
Proof.
  split; [|split; [|split]].
  - intros l. apply NoDup_dedup_from.
  - intros l x. unfold deduplicate. rewrite elem_of_dedup_from, lookup_empty.
    split; [by intros [? _]|by auto].
  - intros l i j x y Hi Hj Hij.
    pose proof (NoDup_dedup_from ∅ l) as Hnd. fold (deduplicate l) in Hnd.
    destruct (list_elem_of_split_length _ _ _ Hi) as (r1 & r2 & Heq & Hlen).
    destruct (dedup_from_split ∅ l r1 x r2 Heq) as (l1 & l2 & -> & Hl1).
    assert (y ∈ r2) as Hy.
    { rewrite Heq in Hj. rewrite lookup_app_r in Hj by lia.
      replace (j - length r1) with (S (j - length r1 - 1)) in Hj by lia.
      eapply list_elem_of_lookup_2, Hj. }
    assert (x <> y) as Hxy.
    { intros ->. rewrite Heq in Hnd. apply NoDup_app in Hnd as (_ & _ & Hnd).
      by apply NoDup_cons in Hnd as [? _]. }
    exists (length l1). split.
    + by rewrite list_lookup_middle.
    + intros q Hq.
      destruct (decide (q < length l1)) as [Hlt|Hge].
      * rewrite lookup_app_l in Hq by done.
        exfalso. eapply Hl1; [done|]. eapply list_elem_of_lookup_2, Hq.
      * destruct (decide (q = length l1)) as [->|Hne]; [|lia].
        rewrite list_lookup_middle in Hq by done. congruence.
  - reflexivity.
Qed.

End Deduplicate.

(** ** Enumerating and matching the collections of a server *)

Section Collections.
Context {V : Type}.
Implicit Types (d : dict V) (k t : string).

Lemma dict_get_set k v d t :
  dict_get t (dict_set k v d) = if decide (k = t) then Some v else dict_get t d.
Proof.
  induction d as [|[k' v'] d IH]; cbn [dict_set dict_get].
  - destruct (String.eqb_spec k t); by case_decide.
  - destruct (String.eqb_spec k' k) as [->|Hne]; cbn [dict_get].
    + destruct (String.eqb_spec k t); by case_decide.
    + rewrite IH. destruct (String.eqb_spec k' t) as [->|]; [|done].
      by rewrite decide_False.
Qed.

Lemma elem_of_dict_keys_set k v d t :
  t ∈ dict_keys (dict_set k v d) <-> t = k \/ t ∈ dict_keys d.
Proof.
  unfold dict_keys.
  induction d as [|[k' v'] d IH]; cbn [dict_set map fst].
  - rewrite list_elem_of_singleton, elem_of_nil. tauto.
  - destruct (String.eqb_spec k' k) as [->|Hne]; cbn [map fst].
    + rewrite elem_of_cons. tauto.
    + rewrite !elem_of_cons, IH. tauto.
Qed.

Lemma NoDup_dict_keys_set k v d :
  NoDup (dict_keys d) -> NoDup (dict_keys (dict_set k v d)).
Proof.
  unfold dict_keys.
  induction d as [|[k' v'] d IH]; cbn [dict_set map fst]; intros Hnd.
  - apply NoDup_singleton.
  - apply NoDup_cons in Hnd as [Hk' Hnd].
    destruct (String.eqb_spec k' k) as [->|Hne]; cbn [map fst].
    + by apply NoDup_cons.
    + apply NoDup_cons. split; [|by apply IH].
      intros [?|?]%elem_of_dict_keys_set; [congruence|done].
Qed.

Lemma dict_get_is_Some d t : is_Some (dict_get t d) <-> t ∈ dict_keys d.
Proof.
  unfold dict_keys. induction d as [|[k' v'] d IH]; cbn [dict_get map fst].
  - rewrite elem_of_nil. split; [by intros [? ?]|done].
  - rewrite elem_of_cons. destruct (String.eqb_spec k' t) as [->|Hne].
    + split; [by left|by eauto].
    + rewrite IH. split; [by right|]. intros [?|?]; [congruence|done].
Qed.

End Collections.

(** Lower-casing ASCII text identifies exactly the texts that differ at
    most in the case of their letters. *)
Section CaseFolding.
Import PyStr.

Lemma ascii_lower_char_code a :
  nat_of_ascii (ascii_lower_char a)
  = if (65 <=? nat_of_ascii a)%nat && (nat_of_ascii a <=? 90)%nat
    then nat_of_ascii a + 32 else nat_of_ascii a.
Proof.
  unfold ascii_lower_char. pose proof (nat_ascii_bounded a) as Hb.
  destruct ((65 <=? nat_of_ascii a)%nat && (nat_of_ascii a <=? 90)%nat) eqn:Hup;
    [|done].
  apply andb_true_iff in Hup as [H1%Nat.leb_le H2%Nat.leb_le].
  apply nat_ascii_embedding. lia.
Qed.

Lemma ascii_lower_char_eq a b :
  ascii_lower_char a = ascii_lower_char b <-> same_letter a b = true.
Proof.
  assert (ascii_lower_char a = ascii_lower_char b
          <-> nat_of_ascii (ascii_lower_char a) = nat_of_ascii (ascii_lower_char b))
    as ->.
  { split; [by intros ->|]. intros Heq.
    by rewrite <- (ascii_nat_embedding (ascii_lower_char a)), Heq,
         ascii_nat_embedding. }
  rewrite !ascii_lower_char_code. unfold same_letter.
  rewrite !orb_true_iff, !andb_true_iff, !Nat.eqb_eq, !Nat.leb_le.
  destruct ((65 <=? nat_of_ascii a)%nat) eqn:Ha1;
    destruct ((nat_of_ascii a <=? 90)%nat) eqn:Ha2;
    destruct ((65 <=? nat_of_ascii b)%nat) eqn:Hb1;
    destruct ((nat_of_ascii b <=? 90)%nat) eqn:Hb2;
    cbn [andb];
    rewrite ?Nat.leb_le, ?Nat.leb_gt in *; lia.
Qed.

Lemma ascii_lower_eq s1 s2 :
  ascii_lower s1 = ascii_lower s2 <-> same_ignoring_case s1 s2 = true.
Proof.
  revert s2. induction s1 as [|a r1 IH]; intros [|b r2]; cbn; try done.
  rewrite andb_true_iff, <- IH, <- ascii_lower_char_eq.
  split; [by intros [= -> ->]|by intros [-> ->]].
Qed.

End CaseFolding.

Section Matching.
Context {Envelope : Type} (W : World Envelope).
Implicit Types (name t : string) (c : Collection) (d : dict CollInfo).

Lemma collection_matches_spec name c :
  collection_matches (str_lower W) name c = true
  <-> name = "*" \/ str_lower W (coll_title c) = str_lower W name.
Proof.
  unfold collection_matches.
  rewrite orb_true_iff, !String.eqb_eq. tauto.
Qed.

Lemma dict_get_foldl_match name t cs d :
  dict_get t (foldl (match_collection (str_lower W) name) d cs)
  = match last (filter (selected (str_lower W) name t) cs) with
    | Some c => Some (collection_info c)
    | None => dict_get t d
    end.
Proof.
  revert d. induction cs as [|c cs IH]; intros d; [done|].
  cbn [foldl]. rewrite IH, filter_cons. unfold match_collection.
  destruct (decide (selected (str_lower W) name t c)) as [[Hm Ht]|Hn].
  - rewrite Hm, dict_get_set, decide_True by done. rewrite last_cons.
    by destruct (last (filter (selected (str_lower W) name t) cs)).
  - destruct (collection_matches (str_lower W) name c) eqn:Hm; [|done].
    rewrite dict_get_set, decide_False; [done|].
    intros Ht. by apply Hn.
Qed.

Lemma NoDup_foldl_match name cs d :
  NoDup (dict_keys d) -> NoDup (dict_keys (foldl (match_collection (str_lower W) name) d cs)).
Proof.
  revert d. induction cs as [|c cs IH]; intros d Hnd; [done|].
  cbn [foldl]. apply IH. unfold match_collection.
  destruct (collection_matches (str_lower W) name c); [|done].
  by apply NoDup_dict_keys_set.
Qed.

Lemma match_collections_foldl name cs d :
  match_collections W (Some name) cs d = inr (foldl (match_collection (str_lower W) name) d cs).
Proof. revert d. induction cs as [|c cs IH]; intros d; [done|]. apply IH. Qed.

Lemma walk_api_roots_foldl name roots css d :
  collections <$> roots = inr <$> css ->
  walk_api_roots W (Some name) roots d
  = inr (foldl (match_collection (str_lower W) name) d (concat css)).
Proof.
  revert css d. induction roots as [|root roots IH]; intros [|cs css] d Heq;
    simplify_eq/=; [done|].
  rewrite H, match_collections_foldl, foldl_app. by apply IH.
Qed.

(** C5.  With the API roots and their collections read without error,
    the enumerate-and-match step returns a dictionary keyed by title, the
    keys being the titles of the collections that match: all of them for
    [*], otherwise those whose title and the requested name have the same
    lower-case form, which for ASCII text means that they differ at most
    in the case of their letters.  Under each key stands the last matching
    collection of that title in enumeration order. *)
Theorem matched_collections_are_keyed_by_title name server roots css :
  api_roots server = inr roots ->
  collections <$> roots = inr <$> css ->
  exists d,
    collect_collection_urls W (Some name) server = inr d /\
    NoDup (dict_keys d) /\
    (forall t,
       dict_get t d
       = collection_info <$> last (filter (selected (str_lower W) name t) (concat css))) /\
    (forall t,
       t ∈ dict_keys d
       <-> exists c, c ∈ concat css /\ coll_title c = t /\
             (name = "*" \/ str_lower W t = str_lower W name)) /\
    (folds_ascii W ->
     PyStr.is_ascii name = true ->
     forall t,
       PyStr.is_ascii t = true ->
       t ∈ dict_keys d
       <-> exists c, c ∈ concat css /\ coll_title c = t /\
             (name = "*" \/ PyStr.same_ignoring_case t name = true)).
Proof.
  intros Hroots Hcss.
  exists (foldl (match_collection (str_lower W) name) [] (concat css)).
  assert (forall t,
            dict_get t (foldl (match_collection (str_lower W) name) [] (concat css))
            = collection_info <$> last (filter (selected (str_lower W) name t) (concat css)))
    as Hget.
  { intros t. rewrite dict_get_foldl_match.
    by destruct (last (filter (selected (str_lower W) name t) (concat css))). }
  assert (forall t,
            t ∈ dict_keys (foldl (match_collection (str_lower W) name) [] (concat css))
            <-> exists c, c ∈ concat css /\ coll_title c = t /\
                  (name = "*" \/ str_lower W t = str_lower W name)) as Hkeys.
  { intros t. rewrite <- dict_get_is_Some, Hget, fmap_is_Some.
    rewrite last_is_Some. split.
    + intros Hne.
      destruct (filter (selected (str_lower W) name t) (concat css)) as [|c fl] eqn:Hfl;
        [done|].
      assert (c ∈ filter (selected (str_lower W) name t) (concat css)) as Hc
        by (rewrite Hfl; left).
      apply list_elem_of_filter in Hc as [[Hm Ht] Hc].
      exists c. split; [done|]. split; [done|].
      rewrite <- Ht. by apply collection_matches_spec.
    + intros (c & Hc & Ht & Hm) Hnil.
      assert (c ∈ filter (selected (str_lower W) name t) (concat css)) as Hin.
      { apply list_elem_of_filter. split; [|done]. split; [|done].
        apply collection_matches_spec. by rewrite Ht. }
      rewrite Hnil in Hin. by apply elem_of_nil in Hin. }
  split; [|split; [|split; [|split]]].
  - unfold collect_collection_urls. rewrite Hroots.
    by apply walk_api_roots_foldl.
  - apply NoDup_foldl_match. constructor.
  - done.
  - done.
  - intros Hfold Hname t Ht.
    rewrite Hkeys, (Hfold t Ht), (Hfold name Hname).
    split; intros (c & Hc & Htitle & [Hm|Hm]); exists c;
      (split; [done|split; [done|]]);
      (by left) || (right; by apply ascii_lower_eq).
Qed.

End Matching.

(** ** Retrieving the matched collections *)

Section Retrieval.
Context {Envelope : Type} (W : World Envelope).
Variables (ci : ConnInfo) (server : Server).

Lemma retrieve_collection_connected title info pages :
  TaxiiCollection W (client_version ci) (info_url info)
    (taxiiUsername ci) (taxiiPassword ci) = inr pages ->
  retrieve_collection W ci server (title, info)
  = (ConnectCollection (client_version ci) (info_url info)
       (taxiiUsername ci) (taxiiPassword ci)
     :: trace (page_loop W (envelope_source (server_title server) (Some title)) pages)
     ++ collection_warning W server title pages,
     inr tt).
Proof.
  intros Hconn. unfold retrieve_collection, collection_warning.
  rewrite bind_emit, Hconn, bind_lift_inr.
  destruct (page_loop W _ pages) as [t [e|[]]]; cbn; [done|].
  by rewrite app_nil_r.
Qed.

Lemma process_stix_unfold u source :
  process_stix W u source = ([CallProcessSTIX u source], ProcessSTIX W u source).
Proof. unfold process_stix. by rewrite bind_emit. Qed.


Lemma trace_page_loop source pages :
  trace (page_loop W source pages)
  = trace (for_each (fst pages)
             (fun envelope => process_stix W (FromEnvelope envelope) source)).
Proof.
  unfold page_loop.
  destruct (for_each (fst pages) _) as [t [e|[]]]; [done|].
  destruct (snd pages); cbn; by rewrite app_nil_r.
Qed.


(** With every connection succeeding, the loop visits every collection. *)
Lemma retrieve_all_connected (items : dict CollInfo) :
  (forall title info,
     (title, info) ∈ items ->
     exists pages,
       TaxiiCollection W (client_version ci) (info_url info)
         (taxiiUsername ci) (taxiiPassword ci) = inr pages) ->
  for_each items (retrieve_collection W ci server)
  = (flat_map (fun item => trace (retrieve_collection W ci server item)) items,
     inr tt).
Proof.
  intros Hconn. apply for_each_total. intros [title info] Hin.
  destruct (Hconn _ _ Hin) as [pages Hpages].
  by rewrite (retrieve_collection_connected _ _ _ Hpages).
Qed.

(** C7.  In the loop over the matched collections of a server, an
    exception raised while paging one collection (or converting one of
    its pages) is caught and logged with the title, and the loop goes on
    with the collections that remain: each of them is connected to and
    its pages are retrieved. *)
Theorem paging_failure_is_isolated pre title info post pages e :
  outcome (for_each pre (retrieve_collection W ci server)) = inr tt ->
  TaxiiCollection W (client_version ci) (info_url info)
    (taxiiUsername ci) (taxiiPassword ci) = inr pages ->
  outcome (page_loop W (envelope_source (server_title server) (Some title)) pages)
  = inl e ->
  for_each (pre ++ (title, info) :: post) (retrieve_collection W ci server)
  = (trace (for_each pre (retrieve_collection W ci server))
     ++ ConnectCollection (client_version ci) (info_url info)
          (taxiiUsername ci) (taxiiPassword ci)
     :: trace (page_loop W (envelope_source (server_title server) (Some title)) pages)
     ++ LogWarning (msg_for_collection title e)
     :: trace (for_each post (retrieve_collection W ci server)),
     outcome (for_each post (retrieve_collection W ci server))) /\
  ((forall title' info',
      (title', info') ∈ post ->
      exists pages',
        TaxiiCollection W (client_version ci) (info_url info')
          (taxiiUsername ci) (taxiiPassword ci) = inr pages') ->
   outcome (for_each post (retrieve_collection W ci server)) = inr tt /\
   forall title' info' pages',
     (title', info') ∈ post ->
     TaxiiCollection W (client_version ci) (info_url info')
       (taxiiUsername ci) (taxiiPassword ci) = inr pages' ->
     exists before after,
       trace (for_each post (retrieve_collection W ci server))
       = before
         ++ ConnectCollection (client_version ci) (info_url info')
              (taxiiUsername ci) (taxiiPassword ci)
         :: trace (page_loop W (envelope_source (server_title server) (Some title')) pages')
         ++ after).
Proof.
  intros Hpre Hconn Hraise. split.
  - rewrite for_each_app, (bind_ok _ _ tt) by done. cbn [for_each trace outcome fst snd].
    rewrite (retrieve_collection_connected _ _ _ Hconn).
    unfold collection_warning. rewrite Hraise.
    rewrite (bind_ok _ _ tt) by done. cbn [trace outcome fst snd].
    cbn [app]. by rewrite <- app_assoc.
  - intros Hpost. rewrite (retrieve_all_connected post Hpost).
    split; [done|]. intros title' info' pages' Hin Hpages'.
    apply list_elem_of_split in Hin as (l1 & l2 & ->).
    rewrite flat_map_app. cbn [flat_map trace fst].
    rewrite (retrieve_collection_connected _ _ _ Hpages'). cbn [fst].
    exists (flat_map (fun item => trace (retrieve_collection W ci server item)) l1),
      (collection_warning W server title' pages'
       ++ flat_map (fun item => trace (retrieve_collection W ci server item)) l2).
    cbn [trace fst app]. by rewrite <- app_assoc.
Qed.

End Retrieval.

(** ** Provenance labels *)

Section PathFacts.
Import PyStr OsPath.
Implicit Types (s : string) (c : ascii).

Local Abbreviation len s := (Z.of_nat (String.length s)).

Lemma rfind_from_app c s1 s2 i best :
  rfind_from c (s1 +:+ s2) i best
  = rfind_from c s2 (i + len s1) (rfind_from c s1 i best).
Proof.
  revert i best. induction s1 as [|a r IH]; intros i best.
  - cbn. by rewrite Z.add_0_r.
  - simpl. rewrite IH. f_equal. lia.
Qed.

Lemma rfind_from_absent c s i best :
  has_char c s = false -> rfind_from c s i best = best.
Proof.
  revert i best. induction s as [|a r IH]; intros i best; [done|].
  cbn [has_char rfind_from]. intros [Ha Hr]%orb_false_iff.
  rewrite Ha. by apply IH.
Qed.

Lemma rfind_last c s1 s2 :
  has_char c s2 = false -> rfind c (s1 +:+ String c s2) = len s1.
Proof.
  intros Hs2. unfold rfind. rewrite rfind_from_app. cbn [rfind_from].
  rewrite Ascii.eqb_refl. by apply rfind_from_absent.
Qed.

Lemma rfind_absent c s : has_char c s = false -> rfind c s = (-1)%Z.
Proof. apply rfind_from_absent. Qed.


Lemma drop_chars_app s1 s2 : drop_chars (String.length s1) (s1 +:+ s2) = s2.
Proof. induction s1 as [|a r IH]; [by destruct s2|done]. Qed.


Lemma slice_from_app s1 s2 : slice_from (len s1) (s1 +:+ s2) = s2.
Proof. unfold slice_from. rewrite Nat2Z.id. apply drop_chars_app. Qed.



Lemma append_cons a s1 s2 : String a s1 +:+ s2 = String a (s1 +:+ s2).
Proof. done. Qed.

Lemma append_assoc s1 s2 s3 : (s1 +:+ s2) +:+ s3 = s1 +:+ s2 +:+ s3.
Proof.
  induction s1 as [|a r IH]; [done|]. by rewrite !append_cons, IH.
Qed.

Lemma length_append s1 s2 :
  String.length (s1 +:+ s2) = String.length s1 + String.length s2.
Proof.
  induction s1 as [|a r IH]; [done|]. rewrite append_cons. simpl. by rewrite IH.
Qed.

(** The base name of a path is what follows its last slash. *)
Lemma basename_after_slash dir name :
  has_char "/" name = false -> basename (dir +:+ "/" +:+ name) = name.
Proof.
  intros Hname. unfold basename.
  change (dir +:+ "/" +:+ name) with (dir +:+ String "/" name).
  rewrite (rfind_last _ _ _ Hname).
  replace (len dir + 1)%Z with (len (dir +:+ "/")).
  - change (dir +:+ String "/" name) with (dir +:+ "/" +:+ name).
    rewrite <- append_assoc. apply slice_from_app.
  - rewrite length_append. simpl. lia.
Qed.

Lemma basename_no_slash name :
  has_char "/" name = false -> basename name = name.
Proof. intros Hname. unfold basename. by rewrite (rfind_absent _ _ Hname). Qed.



End PathFacts.

Section Provenance.
Context {Envelope : Type} (W : World Envelope).
Import PyStr OsPath.





End Provenance.

(** ** From the command line to the resolved list *)

Section Resolution.
Context {Envelope : Type} (W : World Envelope).

(** One [--input-file] argument never ends the run: it contributes some
    lines, possibly none, after what is already there. *)
Lemma resolve_input_files_extends refs inputs :
  exists extra,
    outcome (resolve_input_files W refs inputs) = inr (inputs ++ extra).
Proof.
  revert inputs. induction refs as [|infileArg refs IH]; intros inputs.
  - exists []. cbn. by rewrite app_nil_r.
  - cbn [resolve_input_files].
    destruct (read_input_file W infileArg) as [t [e|lines]] eqn:Hread.
    + cbn [try_except]. rewrite bind_emit. cbn [trace outcome fst snd ret app].
      destruct (IH (inputs ++ [])) as [extra Hextra].
      exists extra. rewrite (bind_ok _ _ []) by done.
      cbn [outcome snd]. rewrite Hextra. by rewrite app_nil_r.
    + cbn [try_except].
      destruct (IH (inputs ++ lines)) as [extra Hextra].
      exists (lines ++ extra). rewrite (bind_ok _ _ lines) by done.
      cbn [outcome snd]. rewrite Hextra. by rewrite app_assoc.
Qed.

(** With the flag present, what [main] processes is the deduplicated list
    of the direct inputs followed by the contents of the list files. *)
Lemma main_processes_resolved_list n c i refs :
  STIXParserZeekPrinter W n c = inr tt ->
  exists extra,
    main W (mkArgs n c i (Some refs) None)
    = (trace (resolve_input_files W refs (default [] i))
       ++ trace (process_inputs W (deduplicate (default [] i ++ extra))),
       inr tt).
Proof.
  intros Hprinter. unfold main, with_output.
  cbn [output notice cif inputFile input]. rewrite Hprinter, bind_lift_inr.
  destruct (resolve_input_files_extends refs (default [] i)) as [extra Hextra].
  exists extra. rewrite (bind_ok _ _ _ Hextra).
  by rewrite (process_inputs_unfold W (deduplicate _)).
Qed.

End Resolution.

(** ** Splitting a connection string *)

Section SplitFacts.
Import PyStr.

Lemma split_field sep field rest :
  has_char sep field = false ->
  split sep (field +:+ String sep rest) = field :: split sep rest.
Proof.
  intros Hfield. induction field as [|a r IH]; simpl.
  - by rewrite Ascii.eqb_refl.
  - simpl in Hfield. apply orb_false_iff in Hfield as [Ha Hr].
    rewrite Ha, (IH Hr). done.
Qed.

Lemma split_last sep field :
  has_char sep field = false -> split sep field = [field].
Proof.
  intros Hfield. induction field as [|a r IH]; [done|].
  simpl in *. apply orb_false_iff in Hfield as [Ha Hr].
  by rewrite Ha, (IH Hr).
Qed.

(** Fields without the separator, joined by it, split back into
    themselves. *)
Lemma split_join sep field fields :
  Forall (fun f => has_char sep f = false) (field :: fields) ->
  split sep (join (String sep EmptyString) (field :: fields)) = field :: fields.
Proof.
  revert field. induction fields as [|g fields IH]; intros field Hall.
  - apply split_last. by apply Forall_cons in Hall as [? _].
  - apply Forall_cons in Hall as [Hfield Hall].
    change (join (String sep EmptyString) (field :: g :: fields))
      with (field +:+ String sep EmptyString
              +:+ join (String sep EmptyString) (g :: fields)).
    change (String sep EmptyString +:+ join (String sep EmptyString) (g :: fields))
      with (String sep (join (String sep EmptyString) (g :: fields))).
    rewrite (split_field _ _ _ Hfield). f_equal. by apply IH.
Qed.

End SplitFacts.

(** ** The sample world *)

Module SampleFacts.
Import Sample.

Example split_fields :
  PyStr.split "|" "taxii|2.0|http://example.com/discovery|Collection Name|user|password"
  = ["taxii"; "2.0"; "http://example.com/discovery"; "Collection Name";
     "user"; "password"] /\
  PyStr.split "|" "taxii" = ["taxii"] /\
  PyStr.split "|" "a||b|" = ["a"; EmptyString; "b"; EmptyString].
Proof. repeat split; reflexivity. Qed.

Example splitext_cases :
  OsPath.splitext "a.tar.gz" = ("a.tar", ".gz") /\
  OsPath.splitext ".bashrc" = (".bashrc", EmptyString) /\
  OsPath.splitext "/x.d/..rc" = ("/x.d/..rc", EmptyString) /\
  OsPath.splitext "/x.d/a..rc" = ("/x.d/a.", ".rc") /\
  OsPath.basename "/feeds/intel.v2/indicators.json" = "indicators.json" /\
  OsPath.basename "/feeds/" = EmptyString.
Proof. repeat split; reflexivity. Qed.

(** A whole run: files, a failing file, an unrecognized specifier, the
    wildcard, a name in another case, an unsupported version and a
    specifier cut short. *)
Example sample_run :
  main world
    (mkArgs true true
       (Some [a_json; locked; "foo"; "taxii|2.1|https://x/disc|*|u"; a_json;
              "TAXII|2.0|https://x/disc|BETA"; "taxii|3|x|y"; "taxii|2.0"])
       (Some ["lists.txt"]) None)
  = ([LogWarning "File 'lists.txt' not found";
      OpenInput a_json;
      CallProcessSTIX (FromFile a_json) "a";
      OpenInput locked;
      LogWarning "PermissionError for '/feeds/locked.json': denied";
      ConnectServer V21 (Some disc) (Some "u") None;
      ConnectCollection V21 "coll/a" (Some "u") None;
      CallProcessSTIX (FromEnvelope 7) "srv:Alpha";
      LogWarning "HTTPError for object of collection 'Alpha': 500";
      ConnectCollection V21 "coll/d" (Some "u") None;
      CallProcessSTIX (FromEnvelope 8) "srv:Beta";
      CallProcessSTIX (FromEnvelope 9) "srv:Beta";
      ConnectCollection V21 "coll/c" (Some "u") None;
      CallProcessSTIX (FromEnvelope 1) "srv:alpha";
      CallProcessSTIX (FromEnvelope 2) "srv:alpha";
      ConnectServer V20 (Some disc) None None;
      ConnectCollection V20 "coll/d" None None;
      CallProcessSTIX (FromEnvelope 8) "srv:Beta";
      CallProcessSTIX (FromEnvelope 9) "srv:Beta";
      LogWarning
        ("Exception for 'taxii|3|x|y': Unsupported TAXII version "
         +:+ PyStr.dquote +:+ "3" +:+ PyStr.dquote);
      LogWarning
        ("Exception for 'taxii|2.0': Unsupported TAXII version "
         +:+ PyStr.dquote +:+ "None" +:+ PyStr.dquote)],
     inr tt).
Proof. vm_compute. reflexivity. Qed.

End SampleFacts.

(** ** The theorems at work on the sample world *)

Module Witness.
Import Sample.

(** A batch of three where the second specifier raises. *)
Lemma specifier_failure_is_isolated_witness :
  process_inputs world [a_json; locked; c_json]
  = ([OpenInput a_json; CallProcessSTIX (FromFile a_json) "a";
      OpenInput locked; LogWarning (msg_for locked denied);
      OpenInput c_json; CallProcessSTIX (FromFile c_json) "c.stix"],
     inr tt) /\
  CallProcessSTIX (FromFile c_json) "c.stix"
    ∈ trace (process_inputs world [a_json; locked; c_json]).
Proof.
  destruct (specifier_failure_is_isolated world) as (_ & Hthree & Hfile).
  split.
  - apply (Hthree a_json locked c_json denied). reflexivity.
  - apply (Hfile [a_json; locked; c_json] c_json);
      [repeat constructor | reflexivity | reflexivity].
Defined.

Lemma main_without_input_file_is_fatal_witness :
  main world (mkArgs true true (Some [a_json]) None None)
  = ([], inl none_not_iterable).
Proof.
  apply (proj2 (main_without_input_file_is_fatal world true true
                  (Some [a_json]) None)).
  reflexivity.
Defined.

Lemma deduplicate_keeps_first_occurrences_witness :
  exists p,
    ["a.json"; "a.json"; "b.json"] !! p = Some "a.json" /\
    forall q, ["a.json"; "a.json"; "b.json"] !! q = Some "b.json" -> p < q.
Proof.
  apply (proj1 (proj2 (proj2 deduplicate_keeps_first_occurrences))
           ["a.json"; "a.json"; "b.json"] 0 1 "a.json" "b.json");
    [reflexivity | reflexivity | lia].
Defined.

Lemma credentials_are_optional_fields_witness :
  parse_conn_info world "taxii|2.0|https://x/disc|Alpha"
  = inr (mkConnInfo (Some "2.0") (Some disc) (Some "Alpha") None None) /\
  parse_conn_info world "taxii|2.0|https://x/disc|Alpha|guest"
  = inr (mkConnInfo (Some "2.0") (Some disc) (Some "Alpha") (Some "guest") None) /\
  parse_conn_info world "taxii|2.0|https://x/disc|Alpha|guest|secret"
  = inr (mkConnInfo (Some "2.0") (Some disc) (Some "Alpha")
           (Some "guest") (Some "secret")).
Proof.
  destruct (credentials_are_optional_fields world
              "taxii" "2.0" disc "Alpha" "2.0" disc "Alpha")
    as (H4 & H5 & H6); [reflexivity..|].
  split; [|split].
  - apply H4. reflexivity.
  - apply (H5 _ "guest" "guest"); reflexivity.
  - apply (H6 _ "guest" "guest" "secret" "secret"); reflexivity.
Defined.

(** The name [ALPHA] picks the collections titled [Alpha] and [alpha],
    each under its own title, and leaves out the two titled [Beta]. *)
Lemma matched_collections_are_keyed_by_title_witness :
  exists d,
    collect_collection_urls world (Some "ALPHA") server = inr d /\
    d = [("Alpha", mkCollInfo "1" "coll/a"); ("alpha", mkCollInfo "3" "coll/c")] /\
    ("Alpha" ∈ dict_keys d
     <-> exists c,
           c ∈ [mkCollection "1" "Alpha" "coll/a";
                mkCollection "2" "Beta" "coll/b";
                mkCollection "3" "alpha" "coll/c";
                mkCollection "4" "Beta" "coll/d"] /\
           coll_title c = "Alpha" /\
           ("ALPHA" = "*" \/ PyStr.same_ignoring_case "Alpha" "ALPHA" = true)).
Proof.
  destruct (matched_collections_are_keyed_by_title world "ALPHA" server
              [mkApiRoot (inr [mkCollection "1" "Alpha" "coll/a";
                               mkCollection "2" "Beta" "coll/b"]);
               mkApiRoot (inr [mkCollection "3" "alpha" "coll/c";
                               mkCollection "4" "Beta" "coll/d"])]
              [[mkCollection "1" "Alpha" "coll/a"; mkCollection "2" "Beta" "coll/b"];
               [mkCollection "3" "alpha" "coll/c"; mkCollection "4" "Beta" "coll/d"]]
              eq_refl eq_refl)
    as (d & Hd & _ & _ & _ & Hascii).
  exists d. split; [exact Hd|]. split.
  - vm_compute in Hd. injection Hd as <-. reflexivity.
  - apply Hascii; [|reflexivity|reflexivity].
    intros s _. reflexivity.
Defined.

Lemma unsupported_version_is_skipped_witness :
  process_body world "taxii|3|x|y" = ([], inl (unsupported_version (Some "3"))) /\
  process_one world "taxii|3|x|y"
  = ([LogWarning (msg_for "taxii|3|x|y" (unsupported_version (Some "3")))], inr tt) /\
  (forall ver url user pw,
     ConnectServer ver url user pw ∉ trace (process_one world "taxii|3|x|y")) /\
  process_inputs world ["taxii|3|x|y"; a_json]
  = (LogWarning (msg_for "taxii|3|x|y" (unsupported_version (Some "3")))
       :: trace (process_inputs world [a_json]),
     inr tt).
Proof.
  apply (unsupported_version_is_skipped world "taxii|3|x|y"
           (mkConnInfo (Some "3") (Some "x") (Some "y") None None) "3" [a_json]);
    try reflexivity; discriminate.
Defined.

Lemma paging_failure_is_isolated_witness :
  let ci := mkConnInfo (Some "2.1") (Some disc) (Some "*") None None in
  let items := [("Beta", mkCollInfo "4" "coll/d"); ("alpha", mkCollInfo "3" "coll/c")] in
  for_each (("Alpha", mkCollInfo "1" "coll/a") :: items)
    (retrieve_collection world ci server)
  = (ConnectCollection V21 "coll/a" None None
     :: trace (page_loop world "srv:Alpha" ([7], Some http500))
     ++ LogWarning (msg_for_collection "Alpha" http500)
     :: trace (for_each items (retrieve_collection world ci server)),
     outcome (for_each items (retrieve_collection world ci server))) /\
  outcome (for_each items (retrieve_collection world ci server)) = inr tt.
Proof.
  intros ci items.
  destruct (paging_failure_is_isolated world ci server []
              "Alpha" (mkCollInfo "1" "coll/a") items ([7], Some http500) http500)
    as [Hloop Hrest]; [reflexivity..|].
  split; [exact Hloop|].
  apply Hrest. intros title' info' Hin.
  apply list_elem_of_In in Hin. simpl in Hin.
  destruct Hin as [[= <- <-]|[[= <- <-]|[]]]; eexists; reflexivity.
Defined.


Lemma unrecognized_specifier_is_silent_witness :
  process_one world "nonexistent.json" = ([], inr tt) /\
  process_inputs world ["nonexistent.json"; a_json] = process_inputs world [a_json].
Proof.
  apply (unrecognized_specifier_is_silent world "nonexistent.json" [a_json]);
    reflexivity.
Defined.

(** A specifier with two fields after the marker, the second of which
    cannot be decoded: what is raised, caught and logged is the decoder's
    exception, not the unsupported-version one. *)
Lemma missing_fields_may_end_in_the_decoder :
  isfile world "taxii|2.0|base64:@@" = false /\
  PyStr.startswith (str_lower world "taxii|2.0|base64:@@") "taxii" = true /\
  length (tail (PyStr.split "|" "taxii|2.0|base64:@@")) < 3 /\
  process_body world "taxii|2.0|base64:@@" = ([], inl (mkExc "Error" "padding")) /\
  process_one world "taxii|2.0|base64:@@"
  = ([LogWarning (msg_for "taxii|2.0|base64:@@" (mkExc "Error" "padding"))],
     inr tt) /\
  mkExc "Error" "padding" <> unsupported_version None.
Proof.
  split; [reflexivity|]. split; [reflexivity|]. split; [simpl; lia|].
  split; [reflexivity|]. split; [reflexivity|]. discriminate.
Qed.

Lemma missing_fields_is_unsupported_version_witness :
  parse_conn_info world "taxii|2.0" = inr (mkConnInfo None None None None None) /\
  process_body world "taxii|2.0" = ([], inl (unsupported_version None)) /\
  process_inputs world ["taxii|2.0"; a_json]
  = (LogWarning (msg_for "taxii|2.0" (unsupported_version None))
       :: trace (process_inputs world [a_json]),
     inr tt).
Proof.
  destruct (missing_fields_is_unsupported_version world "taxii|2.0" [a_json])
    as (_ & Hdecoded & _); [reflexivity | reflexivity | simpl; lia |].
  apply (Hdecoded ["2.0"]). reflexivity.
Defined.

End Witness.

(** * Further properties of [main] *)

(** ** Where the events of a computation come from *)

Section TraceFacts.
Context {Envelope : Type}.
Implicit Types (ev : Event Envelope) (P : Event Envelope -> Prop).

Lemma Forall_trace_bind {A B} P (m : M Envelope A) (k : A -> M Envelope B) :
  Forall P (trace m) ->
  (forall a, outcome m = inr a -> Forall P (trace (k a))) ->
  Forall P (trace (bind m k)).
Proof.
  destruct m as [t [e|a]]; cbn; intros Ht Hk; [done|].
  specialize (Hk a eq_refl). destruct (k a) as [t' r]. cbn in *.
  by apply Forall_app.
Qed.

Lemma Forall_trace_try_except {A} P (m : M Envelope A) h :
  Forall P (trace m) ->
  (forall e, outcome m = inl e -> Forall P (trace (h e))) ->
  Forall P (trace (try_except m h)).
Proof.
  destruct m as [t [e|a]]; cbn; intros Ht Hh; [|done].
  specialize (Hh e eq_refl). destruct (h e) as [t' r]. cbn in *.
  by apply Forall_app.
Qed.

Lemma Forall_trace_for_each {A} P (l : list A) (body : A -> M Envelope unit) :
  (forall x, x ∈ l -> Forall P (trace (body x))) ->
  Forall P (trace (for_each l body)).
Proof.
  induction l as [|x l IH]; intros Hbody; [by constructor|].
  cbn [for_each]. apply Forall_trace_bind.
  - apply Hbody. left.
  - intros _ _. apply IH. intros y Hy. apply Hbody. by right.
Qed.

Lemma Forall_trace_lift {A} P (r : Exc + A) : Forall P (trace (Envelope:=Envelope) (lift r)).
Proof. constructor. Qed.

Lemma Forall_trace_emit P ev : P ev -> Forall P (trace (emit ev)).
Proof. intros Hev. by repeat constructor. Qed.

End TraceFacts.

(** ** The loop over the list files *)

Section ListFiles.
Context {Envelope : Type} (W : World Envelope).

Lemma resolve_step infileArg :
  try_except (read_input_file W infileArg)
    (fun e => do _ <- emit (LogWarning (msg_for infileArg e)); ret [])
  = (trace (read_input_file W infileArg) ++ ref_warning W infileArg,
     inr (ref_lines W infileArg)).
Proof.
  unfold ref_warning, ref_lines.
  destruct (read_input_file W infileArg) as [t [e|lines]]; cbn; [done|].
  by rewrite app_nil_r.
Qed.

Lemma resolve_input_files_unfold refs inputs :
  resolve_input_files W refs inputs
  = (flat_map (fun r => trace (read_input_file W r) ++ ref_warning W r) refs,
     inr (inputs ++ flat_map (ref_lines W) refs)).
Proof.
  revert inputs. induction refs as [|r refs IH]; intros inputs.
  - cbn. by rewrite app_nil_r.
  - cbn [resolve_input_files flat_map]. rewrite resolve_step.
    rewrite (bind_ok _ _ (ref_lines W r)) by done.
    rewrite IH. cbn [trace outcome fst snd]. do 2 f_equal.
    by rewrite <- app_assoc.
Qed.

Lemma read_input_file_warnings infileArg :
  Forall (fun ev => exists msg, ev = LogWarning msg)
    (trace (read_input_file W infileArg)).
Proof.
  unfold read_input_file.
  destruct (isfile W infileArg); [apply Forall_trace_lift|].
  destruct (PyStr.contains "://" infileArg).
  - apply Forall_trace_bind; [apply Forall_trace_lift|]. intros. constructor.
  - apply Forall_trace_bind; [|intros; constructor].
    apply Forall_trace_emit. eauto.
Qed.

Lemma resolve_input_files_warnings refs inputs :
  Forall (fun ev => exists msg, ev = LogWarning msg)
    (trace (resolve_input_files W refs inputs)).
Proof.
  rewrite resolve_input_files_unfold. cbn [trace fst].
  induction refs as [|r refs IH]; [constructor|].
  cbn [flat_map]. rewrite !Forall_app. split; [split|done].
  - apply read_input_file_warnings.
  - unfold ref_warning. destruct (outcome (read_input_file W r)); repeat constructor.
    eauto.
Qed.

(** X1.  The loop over the [--input-file] arguments never raises.  Each
    argument, whatever happened to the ones before, is read in turn; one
    that raises leaves a warning and adds nothing.  The list that results is
    the direct inputs, unchanged and first, followed by the lines of the
    list files in the order of the arguments. *)
Theorem list_file_failures_are_isolated refs inputs :
  outcome (resolve_input_files W refs inputs)
  = inr (inputs ++ flat_map (ref_lines W) refs) /\
  trace (resolve_input_files W refs inputs)
  = flat_map (fun r => trace (read_input_file W r) ++ ref_warning W r) refs /\
  Forall (fun ev => exists msg, ev = LogWarning msg)
    (trace (resolve_input_files W refs inputs)).
Proof.
  split; [|split]; [..|apply resolve_input_files_warnings];
    by rewrite resolve_input_files_unfold.
Qed.

(** X2.  An [--input-file] argument that is neither an existing file nor
    holds [://] adds nothing to the inputs and leaves the one warning
    [File '...' not found]; the arguments after it are read as if it had
    not been given. *)
Theorem unknown_list_file_is_reported infileArg rest inputs :
  isfile W infileArg = false ->
  PyStr.contains "://" infileArg = false ->
  resolve_input_files W (infileArg :: rest) inputs
  = (LogWarning (msg_not_found infileArg)
       :: trace (resolve_input_files W rest inputs),
     outcome (resolve_input_files W rest inputs)).
Proof.
  intros Hf Hurl.
  assert (read_input_file W infileArg
          = ([LogWarning (msg_not_found infileArg)], inr [])) as Hread.
  { unfold read_input_file. by rewrite Hf, Hurl. }
  rewrite !resolve_input_files_unfold. cbn [flat_map trace outcome fst snd].
  unfold ref_warning, ref_lines. by rewrite Hread.
Qed.

End ListFiles.

(** ** The pages of one collection *)

Section PageLoop.
Context {Envelope : Type} (W : World Envelope).

Lemma for_each_pages_ok source envs :
  (forall envelope, envelope ∈ envs ->
     ProcessSTIX W (FromEnvelope envelope) source = inr tt) ->
  for_each envs (fun envelope => process_stix W (FromEnvelope envelope) source)
  = (hand_over source <$> envs, inr tt).
Proof.
  intros Hok. induction envs as [|env envs IH]; [done|].
  cbn [for_each]. rewrite process_stix_unfold.
  rewrite (bind_ok _ _ tt) by (apply Hok; left).
  rewrite IH by (intros ? ?; apply Hok; by right). done.
Qed.

Lemma for_each_pages_fail source pre envelope post e :
  (forall x, x ∈ pre -> ProcessSTIX W (FromEnvelope x) source = inr tt) ->
  ProcessSTIX W (FromEnvelope envelope) source = inl e ->
  for_each (pre ++ envelope :: post)
    (fun envelope => process_stix W (FromEnvelope envelope) source)
  = (hand_over source <$> (pre ++ [envelope]), inl e).
Proof.
  intros Hpre Hraise. induction pre as [|x pre IH]; cbn [app for_each].
  - by rewrite process_stix_unfold, Hraise.
  - rewrite process_stix_unfold.
    rewrite (bind_ok _ _ tt) by (apply Hpre; left).
    rewrite IH by (intros ? ?; apply Hpre; by right). done.
Qed.

(** X4.  When the converter accepts every page, the pages of a collection
    are handed to it one by one in the order received, and the loop ends
    the way the paging ended: with the exception raised while fetching,
    if any. *)
Theorem pages_are_handed_over_in_order source envs err :
  (forall envelope, envelope ∈ envs ->
     ProcessSTIX W (FromEnvelope envelope) source = inr tt) ->
  page_loop W source (envs, err)
  = (hand_over source <$> envs,
     match err with
     | Some e => inl e
     | None => inr tt
     end).
Proof.
  intros Hok. unfold page_loop. cbn [fst snd].
  rewrite (for_each_pages_ok _ _ Hok), (bind_ok _ _ tt) by done.
  cbn [trace outcome fst snd]. destruct err; cbn; by rewrite app_nil_r.
Qed.

(** X5.  When the converter raises on a page, the pages after it are not
    handed over, and the exception that leaves the loop is the
    converter's, whatever the paging itself would have ended with. *)
Theorem conversion_failure_drops_later_pages source pre envelope post err e :
  (forall x, x ∈ pre -> ProcessSTIX W (FromEnvelope x) source = inr tt) ->
  ProcessSTIX W (FromEnvelope envelope) source = inl e ->
  page_loop W source (pre ++ envelope :: post, err)
  = (hand_over source <$> (pre ++ [envelope]), inl e).
Proof.
  intros Hpre Hraise. unfold page_loop. cbn [fst snd].
  by rewrite (for_each_pages_fail _ _ _ post _ Hpre Hraise).
Qed.

End PageLoop.

(** ** A TAXII specifier, step by step *)

Section TaxiiFlow.
Context {Envelope : Type} (W : World Envelope).
Implicit Types (ci : ConnInfo) (server : Server).

Lemma connect_server_supported ci :
  supported ci ->
  connect_server W ci
  = ([server_event ci],
     TaxiiServer W (client_version ci) (taxiiDisoveryURL ci)
       (taxiiUsername ci) (taxiiPassword ci)).
Proof.
  unfold connect_server, server_event, client_version.
  intros [Hv|Hv]; rewrite Hv.
  - rewrite decide_True by done. rewrite decide_False by done.
    by rewrite bind_emit.
  - rewrite decide_False by done. rewrite !decide_True by done.
    by rewrite bind_emit.
Qed.

(** What a specifier with a supported version does, by the answers of the
    server. *)
Lemma process_taxii_supported inarg ci :
  parse_conn_info W inarg = inr ci ->
  supported ci ->
  process_taxii W inarg
  = match TaxiiServer W (client_version ci) (taxiiDisoveryURL ci)
            (taxiiUsername ci) (taxiiPassword ci) with
    | inl e => ([server_event ci], inl e)
    | inr server =>
        match collect_collection_urls W (taxiiCollectionName ci) server with
        | inl e => ([server_event ci], inl e)
        | inr collectionUrls =>
            (server_event ci
               :: trace (for_each collectionUrls (retrieve_collection W ci server)),
             outcome (for_each collectionUrls (retrieve_collection W ci server)))
        end
    end.
Proof.
  intros Hparse Hsup. unfold process_taxii.
  rewrite Hparse, bind_lift_inr, (connect_server_supported _ Hsup).
  destruct (TaxiiServer W _ _ _ _) as [e|server]; [done|].
  rewrite (bind_ok _ _ server) by done. cbn [trace outcome fst snd].
  destruct (collect_collection_urls W _ server) as [e|d]; [done|].
  rewrite bind_lift_inr. done.
Qed.

Lemma process_one_raised inarg t e :
  process_body W inarg = (t, inl e) ->
  process_one W inarg = (t ++ [LogWarning (msg_for inarg e)], inr tt).
Proof.
  intros Hbody. rewrite process_one_unfold. unfold specifier_warning.
  by rewrite Hbody.
Qed.

Lemma process_one_returned inarg t :
  process_body W inarg = (t, inr tt) ->
  process_one W inarg = (t, inr tt).
Proof.
  intros Hbody. rewrite process_one_unfold. unfold specifier_warning.
  rewrite Hbody. cbn. by rewrite app_nil_r.
Qed.

(** X6.  When the server cannot be connected to, or reading its API roots
    or the collections of one of them raises, the specifier ends with the
    one connection attempt and one warning: no collection is contacted and
    nothing is handed to the converter, and the batch goes on. *)
Theorem discovery_failure_skips_the_specifier inarg ci e rest :
  isfile W inarg = false ->
  PyStr.startswith (str_lower W inarg) "taxii" = true ->
  parse_conn_info W inarg = inr ci ->
  supported ci ->
  (TaxiiServer W (client_version ci) (taxiiDisoveryURL ci)
     (taxiiUsername ci) (taxiiPassword ci) = inl e \/
   exists server,
     TaxiiServer W (client_version ci) (taxiiDisoveryURL ci)
       (taxiiUsername ci) (taxiiPassword ci) = inr server /\
     collect_collection_urls W (taxiiCollectionName ci) server = inl e) ->
  process_inputs W (inarg :: rest)
  = (server_event ci :: LogWarning (msg_for inarg e)
       :: trace (process_inputs W rest),
     inr tt).
Proof.
  intros Hf Hp Hparse Hsup Hfail.
  assert (process_body W inarg = ([server_event ci], inl e)) as Hbody.
  { rewrite (process_body_taxii _ _ Hf Hp), (process_taxii_supported _ _ Hparse Hsup).
    destruct Hfail as [->|(server & -> & ->)]; done. }
  by rewrite process_inputs_cons, (process_one_raised _ _ _ Hbody).
Qed.

(** X7.  Enumeration is all or nothing: when the collections of one API
    root cannot be read, the whole step raises, even if collections of
    earlier roots had matched already. *)
Theorem enumeration_is_all_or_nothing name server before root after css e :
  api_roots server = inr (before ++ root :: after) ->
  collections <$> before = inr <$> css ->
  collections root = inl e ->
  collect_collection_urls W (Some name) server = inl e.
Proof.
  intros Hroots Hbefore Hroot. unfold collect_collection_urls. rewrite Hroots.
  clear Hroots. generalize (@nil (string * CollInfo)) as d.
  revert css Hbefore. induction before as [|r before IH]; intros css Hbefore d.
  - cbn. by rewrite Hroot.
  - destruct css as [|cs css]; [done|]. cbn in Hbefore.
    injection Hbefore as Hr Hbefore.
    cbn [app walk_api_roots]. rewrite Hr, match_collections_foldl.
    by eapply IH.
Qed.

(** X8.  A matched collection that cannot be connected to ends the loop
    over the collections: the exception leaves the loop (it stands
    outside the [try] of the paging), and the collections after it are not
    contacted. *)
Theorem collection_connect_failure_ends_the_loop ci server before title info after e :
  outcome (for_each before (retrieve_collection W ci server)) = inr tt ->
  TaxiiCollection W (client_version ci) (info_url info)
    (taxiiUsername ci) (taxiiPassword ci) = inl e ->
  for_each (before ++ (title, info) :: after) (retrieve_collection W ci server)
  = (trace (for_each before (retrieve_collection W ci server))
     ++ [collection_event ci info],
     inl e).
Proof.
  intros Hbefore Hconn.
  rewrite for_each_app, (bind_ok _ _ tt) by done. cbn [for_each].
  assert (retrieve_collection W ci server (title, info)
          = ([collection_event ci info], inl e)) as ->.
  { unfold retrieve_collection. by rewrite bind_emit, Hconn. }
  done.
Qed.

(** X9.  When no collection of the server matches the requested name, the
    specifier is done after the connection: nothing is retrieved and
    nothing is logged. *)
Theorem no_match_is_silent inarg ci name server roots css :
  isfile W inarg = false ->
  PyStr.startswith (str_lower W inarg) "taxii" = true ->
  parse_conn_info W inarg = inr ci ->
  supported ci ->
  taxiiCollectionName ci = Some name ->
  TaxiiServer W (client_version ci) (taxiiDisoveryURL ci)
    (taxiiUsername ci) (taxiiPassword ci) = inr server ->
  api_roots server = inr roots ->
  collections <$> roots = inr <$> css ->
  (forall c, c ∈ concat css -> collection_matches (str_lower W) name c = false) ->
  process_one W inarg = ([server_event ci], inr tt).
Proof.
  intros Hf Hp Hparse Hsup Hname Hserver Hroots Hcss Hnone.
  apply process_one_returned.
  rewrite (process_body_taxii _ _ Hf Hp), (process_taxii_supported _ _ Hparse Hsup).
  rewrite Hserver, Hname. unfold collect_collection_urls. rewrite Hroots.
  rewrite (walk_api_roots_foldl _ _ _ _ _ Hcss).
  assert (foldl (match_collection (str_lower W) name) [] (concat css) = []) as ->; [|done].
  revert Hnone. generalize (concat css) as cs.
  induction cs as [|c cs IH]; intros Hnone; [done|].
  cbn [foldl]. unfold match_collection at 2. rewrite Hnone by left.
  apply IH. intros ? ?. apply Hnone. by right.
Qed.

(** X10.  Every connection a specifier makes, to the server and to each
    collection, uses the client library of its version field and the user
    name and password of its fifth and sixth fields; the two libraries are
    never mixed within one specifier. *)
Theorem connections_use_the_parsed_fields inarg ci :
  parse_conn_info W inarg = inr ci ->
  Forall (uses_conn ci) (trace (process_taxii W inarg)).
Proof.
  intros Hparse. unfold process_taxii. rewrite Hparse, bind_lift_inr.
  apply Forall_trace_bind.
  - unfold connect_server.
    assert (forall v, v = client_version ci ->
              Forall (@uses_conn Envelope ci)
                (trace (do _ <- emit (ConnectServer v (taxiiDisoveryURL ci)
                                        (taxiiUsername ci) (taxiiPassword ci));
                        lift (TaxiiServer W v (taxiiDisoveryURL ci)
                                (taxiiUsername ci) (taxiiPassword ci)))))
      as Hconnect.
    { intros v ->. rewrite bind_emit. by repeat constructor. }
    unfold client_version in Hconnect.
    destruct (decide (taxiiVersion ci = Some "2.0")) as [Hv|_].
    + apply Hconnect. rewrite Hv. by rewrite decide_False.
    + destruct (decide (taxiiVersion ci = Some "2.1")); [by apply Hconnect|].
      constructor.
  - intros server _. apply Forall_trace_bind; [apply Forall_trace_lift|].
    intros d _. apply Forall_trace_for_each. intros [title info] _.
    unfold retrieve_collection.
    apply Forall_trace_bind; [by apply Forall_trace_emit|]. intros _ _.
    apply Forall_trace_bind; [apply Forall_trace_lift|]. intros pages _.
    apply Forall_trace_try_except.
    + rewrite trace_page_loop. apply Forall_trace_for_each. intros env _.
      rewrite process_stix_unfold. by repeat constructor.
    + intros e _. by apply Forall_trace_emit.
Qed.

End TaxiiFlow.

(** ** Files and servers are kept apart *)

Section Separation.
Context {Envelope : Type} (W : World Envelope).

Lemma process_taxii_off_disk inarg :
  Forall off_disk (trace (process_taxii W inarg)).
Proof.
  unfold process_taxii.
  apply Forall_trace_bind; [apply Forall_trace_lift|]. intros ci _.
  apply Forall_trace_bind.
  - unfold connect_server.
    repeat case_decide; try (rewrite bind_emit; by repeat constructor).
    constructor.
  - intros server _. apply Forall_trace_bind; [apply Forall_trace_lift|].
    intros d _. apply Forall_trace_for_each. intros [title info] _.
    unfold retrieve_collection.
    apply Forall_trace_bind; [by apply Forall_trace_emit|]. intros _ _.
    apply Forall_trace_bind; [apply Forall_trace_lift|]. intros pages _.
    apply Forall_trace_try_except.
    + rewrite trace_page_loop. apply Forall_trace_for_each. intros env _.
      rewrite process_stix_unfold. by repeat constructor.
    + intros e _. by apply Forall_trace_emit.
Qed.

(** The events of a specifier that is an existing file. *)
Lemma process_one_file_events inarg :
  isfile W inarg = true ->
  Forall (fun ev => ev = OpenInput inarg \/
                    ev = CallProcessSTIX (FromFile inarg) (file_source inarg) \/
                    exists msg, ev = LogWarning msg)
    (trace (process_one W inarg)).
Proof.
  intros Hf. unfold process_one, process_body. rewrite Hf.
  apply Forall_trace_try_except.
  - apply Forall_trace_bind; [apply Forall_trace_emit; by left|]. intros _ _.
    apply Forall_trace_bind; [apply Forall_trace_lift|]. intros _ _.
    rewrite process_stix_unfold. cbn [trace fst].
    apply Forall_cons. split; [by right; left|constructor].
  - intros e _. apply Forall_trace_emit. right; right. eauto.
Qed.

Lemma process_one_off_disk inarg :
  isfile W inarg = false -> Forall off_disk (trace (process_one W inarg)).
Proof.
  intros Hf. unfold process_one, process_body. rewrite Hf.
  apply Forall_trace_try_except.
  - destruct (PyStr.startswith _ _); [apply process_taxii_off_disk|constructor].
  - intros e _. by apply Forall_trace_emit.
Qed.

(** X11.  A specifier that is an existing file is only opened and
    converted: no server or collection is contacted for it, even if its
    name starts with [taxii].  A specifier that is no existing file never
    leads to opening or converting a local file.  So the only files a run
    opens as input are existing files named among its specifiers. *)
Theorem files_and_servers_are_kept_apart :
  (forall inarg,
     isfile W inarg = true -> Forall off_line (trace (process_one W inarg))) /\
  (forall inarg,
     isfile W inarg = false -> Forall off_disk (trace (process_one W inarg))) /\
  (forall inputs path,
     OpenInput path ∈ trace (process_inputs W inputs) ->
     path ∈ inputs /\ isfile W path = true).
Proof.
  split; [|split].
  - intros inarg Hf. eapply Forall_impl; [by apply process_one_file_events|].
    intros ev [->|[->|[msg ->]]]; done.
  - apply process_one_off_disk.
  - intros inputs path (x & Hx & Hev)%trace_process_inputs_elem.
    destruct (isfile W x) eqn:Hf.
    + pose proof (process_one_file_events x Hf) as Hall.
      rewrite Forall_forall in Hall.
      destruct (Hall _ Hev) as [[= ->]|[?|[msg ?]]]; done.
    + pose proof (process_one_off_disk x Hf) as Hall.
      rewrite Forall_forall in Hall. by destruct (Hall _ Hev).
Qed.

Lemma filter_none {A} (f : A -> bool) (l : list A) :
  Forall (fun x => f x = false) l -> List.filter f l = [].
Proof.
  induction 1 as [|x l Hx _ IH]; [done|]. cbn. by rewrite Hx.
Qed.

Lemma filter_flat_map_none {A B} (f : B -> bool) (g : A -> list B) (l : list A) :
  (forall y, y ∈ l -> List.filter f (g y) = []) ->
  List.filter f (flat_map g l) = [].
Proof.
  induction l as [|a l IH]; intros Hnone; [done|].
  cbn [flat_map]. rewrite List.filter_app, Hnone by left.
  apply IH. intros y Hy. apply Hnone. by right.
Qed.

Lemma filter_flat_map_once {A B} `{EqDecision A}
  (f : B -> bool) (g : A -> list B) (l : list A) p :
  NoDup l ->
  p ∈ l ->
  (forall y, y ∈ l -> y <> p -> List.filter f (g y) = []) ->
  List.filter f (flat_map g l) = List.filter f (g p).
Proof.
  induction l as [|a l IH]; intros Hnd Hp Hnone; [by apply elem_of_nil in Hp|].
  apply NoDup_cons in Hnd as [Ha Hnd].
  cbn [flat_map]. rewrite List.filter_app.
  destruct (decide (a = p)) as [->|Hne].
  - rewrite filter_flat_map_none; [by rewrite app_nil_r|].
    intros y Hy. apply Hnone; [by right|]. by intros ->.
  - rewrite (Hnone a) by (done || left). cbn [app].
    apply IH; [done| |].
    + apply elem_of_cons in Hp as [->|Hp]; done.
    + intros y Hy. apply Hnone. by right.
Qed.

(** The events of a run that gets past its start; closing the output
    adds none. *)
Lemma main_trace args refs :
  (forall path, output args = Some path -> open_output W path = inr tt) ->
  STIXParserZeekPrinter W (notice args) (cif args) = inr tt ->
  inputFile args = Some refs ->
  trace (main W args)
  = trace (resolve_input_files W refs (default [] (input args)))
    ++ trace (process_inputs W
                (deduplicate (default [] (input args)
                              ++ flat_map (ref_lines W) refs))).
Proof.
  intros Hout Hprinter Hrefs. unfold main, with_output.
  rewrite Hprinter, Hrefs, bind_lift_inr.
  rewrite (bind_ok _ _ (default [] (input args) ++ flat_map (ref_lines W) refs))
    by (by rewrite resolve_input_files_unfold).
  rewrite (process_inputs_unfold W (deduplicate _)).
  destruct (output args) as [path|]; [|done].
  rewrite (Hout path eq_refl), bind_lift_inr.
  by destruct (close_output W path).
Qed.

(** X12.  In a run that gets past its start, a readable local file named
    among the inputs, however often and whether directly or in a list
    file, is handed to the converter exactly once. *)
Theorem each_file_is_converted_once args refs path :
  (forall p, output args = Some p -> open_output W p = inr tt) ->
  STIXParserZeekPrinter W (notice args) (cif args) = inr tt ->
  inputFile args = Some refs ->
  path ∈ default [] (input args) ++ flat_map (ref_lines W) refs ->
  isfile W path = true ->
  open_input W path = inr tt ->
  List.filter (is_file_call path) (trace (main W args))
  = [CallProcessSTIX (FromFile path) (file_source path)].
Proof.
  intros Hout Hprinter Hrefs Hin Hf Hopen.
  rewrite (main_trace _ _ Hout Hprinter Hrefs).
  rewrite List.filter_app, (filter_none _ (trace (resolve_input_files _ _ _))).
  2:{ eapply Forall_impl; [apply resolve_input_files_warnings|].
      by intros ev [msg ->]. }
  cbn [app]. rewrite process_inputs_unfold. unfold trace at 1. cbn [fst].
  rewrite (filter_flat_map_once _ _ _ path).
  - rewrite process_one_unfold, (process_body_file _ _ Hf Hopen).
    cbn [trace fst app List.filter is_file_call]. rewrite String.eqb_refl.
    f_equal. apply filter_none. unfold specifier_warning.
    destruct (outcome _); by repeat constructor.
  - apply NoDup_dedup_from.
  - unfold deduplicate. by rewrite elem_of_dedup_from, lookup_empty.
  - intros y _ Hne. apply filter_none.
    destruct (isfile W y) eqn:Hy.
    + eapply Forall_impl; [by apply process_one_file_events|].
      intros ev [->|[->|[msg ->]]]; [done| |done].
      cbn. by apply String.eqb_neq.
    + eapply Forall_impl; [by apply process_one_off_disk|].
      by intros [| | | |[]].
Qed.

End Separation.

(** ** The order of retrieval *)

Section RetrievalOrder.
Context {Envelope : Type} (W : World Envelope).
Implicit Types (seen : gmap string string) (l : list string).

Lemma dict_keys_set {V} k (v : V) (d : dict V) :
  dict_keys (dict_set k v d)
  = if decide (k ∈ dict_keys d) then dict_keys d else dict_keys d ++ [k].
Proof.
  unfold dict_keys. induction d as [|[k' v'] d IH]; cbn [dict_set map fst].
  - rewrite decide_False; [done|]. by intros ?%elem_of_nil.
  - destruct (String.eqb_spec k' k) as [->|Hne]; cbn [map fst].
    + rewrite decide_True; [done|left].
    + rewrite IH. destruct (decide (k ∈ map fst d)) as [Hin|Hin].
      * rewrite decide_True; [done|by right].
      * rewrite decide_False; [done|].
        intros [?|?]%elem_of_cons; [congruence|done].
Qed.

Lemma dedup_from_snoc seen l x :
  dedup_from seen (l ++ [x])
  = dedup_from seen l
    ++ (if decide (x ∈ l \/ is_Some (seen !! x)) then [] else [x]).
Proof.
  revert seen. induction l as [|a l IH]; intros seen.
  - cbn [app]. destruct (seen !! x) as [v|] eqn:Hx.
    + rewrite dedup_from_seen by eauto. rewrite decide_True; [done|].
      right. eauto.
    + rewrite dedup_from_new by done. rewrite decide_False; [done|].
      intros [?%elem_of_nil|[? ?]]; done.
  - cbn [app]. destruct (seen !! a) as [v|] eqn:Ha.
    + rewrite !dedup_from_seen by eauto. rewrite IH. f_equal.
      destruct (decide (x ∈ l \/ is_Some (seen !! x))) as [H|H].
      * rewrite decide_True; [done|]. destruct H; [left; by right|by right].
      * rewrite decide_False; [done|].
        intros [[->|?]%elem_of_cons|?]; apply H; eauto.
    + rewrite !dedup_from_new by done. rewrite IH. cbn [app]. do 2 f_equal.
      destruct (decide (x ∈ l \/ is_Some (<[a:=a]> seen !! x))) as [H|H].
      * rewrite decide_True; [done|]. destruct H as [?|Hs]; [left; by right|].
        destruct (decide (a = x)) as [->|Hne]; [left; left|].
        right. by rewrite lookup_insert_ne in Hs.
      * rewrite decide_False; [done|].
        intros [[->|?]%elem_of_cons|Hs]; apply H.
        -- right. rewrite lookup_insert_eq. eauto.
        -- by left.
        -- right. destruct (decide (a = x)) as [->|Hne].
           ++ rewrite lookup_insert_eq. eauto.
           ++ by rewrite lookup_insert_ne.
Qed.

Lemma deduplicate_snoc l x :
  deduplicate (l ++ [x])
  = if decide (x ∈ l) then deduplicate l else deduplicate l ++ [x].
Proof.
  unfold deduplicate. rewrite dedup_from_snoc.
  destruct (decide (x ∈ l)) as [Hin|Hin].
  - rewrite decide_True by (by left). by rewrite app_nil_r.
  - rewrite decide_False; [done|].
    rewrite lookup_empty. intros [?|[? ?]]; done.
Qed.

Lemma elem_of_deduplicate l x : x ∈ deduplicate l <-> x ∈ l.
Proof.
  unfold deduplicate. rewrite elem_of_dedup_from, lookup_empty.
  split; [by intros [? _]|by auto].
Qed.

Lemma dict_keys_foldl_match name cs :
  dict_keys (foldl (match_collection (str_lower W) name) [] cs)
  = deduplicate (coll_title <$> filter (matching (str_lower W) name) cs).
Proof.
  induction cs as [|c cs IH] using rev_ind; [done|].
  rewrite foldl_app, filter_app, fmap_app. cbn [foldl].
  unfold match_collection at 1. rewrite filter_cons, filter_nil.
  destruct (decide (matching (str_lower W) name c)) as [Hm|Hm]; unfold matching in Hm.
  - rewrite Hm. cbn [fmap list_fmap].
    rewrite dict_keys_set, deduplicate_snoc, IH.
    destruct (decide (coll_title c ∈ coll_title <$> filter (matching (str_lower W) name) cs))
      as [Hin|Hin].
    + rewrite decide_True; [done|]. by apply elem_of_deduplicate.
    + rewrite decide_False; [done|]. by rewrite elem_of_deduplicate.
  - apply not_true_is_false in Hm. rewrite Hm. cbn. by rewrite app_nil_r.
Qed.

(** X13.  The matched collections are retrieved in the order in which
    their titles first appear in the enumeration (API root by API root),
    each title once: a later collection of the same title replaces the
    stored URL but keeps the place of the first. *)
Theorem retrieval_follows_first_appearance name server roots css :
  api_roots server = inr roots ->
  collections <$> roots = inr <$> css ->
  exists collectionUrls,
    collect_collection_urls W (Some name) server = inr collectionUrls /\
    dict_keys collectionUrls
    = deduplicate (coll_title <$> filter (matching (str_lower W) name) (concat css)).
Proof.
  intros Hroots Hcss. eexists. split.
  - unfold collect_collection_urls. rewrite Hroots.
    by apply walk_api_roots_foldl.
  - apply dict_keys_foldl_match.
Qed.

End RetrievalOrder.

(** ** The fields of a connection string *)

Section ConnectionString.
Context {Envelope : Type} (W : World Envelope).
Import PyStr.

Lemma decode_fields_plain fields :
  Forall (plain W) fields -> decode_fields W fields = inr fields.
Proof.
  induction 1 as [|x r Hx _ IH]; [done|]. cbn. by rewrite Hx, IH.
Qed.

Lemma decode_fields_raises before x after e :
  (forall y, y ∈ before -> exists z, base64_decode_if_prefixed W y = inr z) ->
  base64_decode_if_prefixed W x = inl e ->
  decode_fields W (before ++ x :: after) = inl e.
Proof.
  intros Hbefore Hx. induction before as [|y before IH]; cbn.
  - by rewrite Hx.
  - destruct (Hbefore y) as [z ->]; [left|].
    rewrite IH; [done|]. intros ? ?. apply Hbefore. by right.
Qed.


(** X15.  Every field after the first is decoded before any is used: one
    that cannot be decoded, wherever it stands, rejects the specifier
    with one warning, and no connection is attempted. *)
Theorem undecodable_field_rejects_the_specifier inarg before x after e :
  isfile W inarg = false ->
  startswith (str_lower W inarg) "taxii" = true ->
  tail (split "|" inarg) = before ++ x :: after ->
  (forall y, y ∈ before -> exists z, base64_decode_if_prefixed W y = inr z) ->
  base64_decode_if_prefixed W x = inl e ->
  process_one W inarg = ([LogWarning (msg_for inarg e)], inr tt).
Proof.
  intros Hf Hp Hfields Hbefore Hx.
  apply (process_one_raised W inarg []).
  rewrite (process_body_taxii _ _ Hf Hp). unfold process_taxii, parse_conn_info.
  by rewrite Hfields, (decode_fields_raises _ _ _ _ Hbefore Hx).
Qed.

(** X16.  A connection string put together from six fields that hold no
    [|] and need no decoding parses back into the last five. *)
Theorem connection_string_round_trip marker v d c user pw :
  Forall pipe_free [marker; v; d; c; user; pw] ->
  Forall (plain W) [v; d; c; user; pw] ->
  parse_conn_info W (join "|" [marker; v; d; c; user; pw])
  = inr (mkConnInfo (Some v) (Some d) (Some c) (Some user) (Some pw)).
Proof.
  intros Hfree Hplain. unfold parse_conn_info.
  rewrite (split_join "|" marker [v; d; c; user; pw] Hfree). cbn [tail].
  by rewrite (decode_fields_plain _ Hplain).
Qed.

(** X17.  A [|] inside a field splits it: of a password written [p1|p2]
    only [p1] is kept. *)
Theorem pipe_in_password_cuts_it marker v d c user p1 p2 :
  Forall pipe_free [marker; v; d; c; user; p1; p2] ->
  Forall (plain W) [v; d; c; user; p1; p2] ->
  parse_conn_info W (join "|" [marker; v; d; c; user; p1 +:+ "|" +:+ p2])
  = inr (mkConnInfo (Some v) (Some d) (Some c) (Some user) (Some p1)).
Proof.
  intros Hfree Hplain. unfold parse_conn_info.
  change (join "|" [marker; v; d; c; user; p1 +:+ "|" +:+ p2])
    with (join "|" [marker; v; d; c; user; p1; p2]).
  rewrite (split_join "|" marker [v; d; c; user; p1; p2] Hfree). cbn [tail].
  by rewrite (decode_fields_plain _ Hplain).
Qed.

End ConnectionString.

(** ** More on deduplication *)

Section DeduplicateMore.
Implicit Types (seen : gmap string string) (l : list string).

Lemma dedup_from_fresh seen l :
  NoDup l -> (forall x, x ∈ l -> seen !! x = None) -> dedup_from seen l = l.
Proof.
  revert seen. induction l as [|a l IH]; intros seen Hnd Hfresh; [done|].
  apply NoDup_cons in Hnd as [Ha Hnd].
  rewrite dedup_from_new by (apply Hfresh; left). f_equal.
  apply IH; [done|]. intros x Hx.
  rewrite lookup_insert_ne; [apply Hfresh; by right|]. by intros ->.
Qed.

(** X18.  A list without repeats is left as it is, so deduplicating twice
    is the same as once. *)
Theorem deduplicate_fixes_duplicate_free_lists :
  (forall l, NoDup l -> deduplicate l = l) /\
  (forall l, deduplicate (deduplicate l) = deduplicate l).
Proof.
  assert (forall l, NoDup l -> deduplicate l = l) as Hfix.
  { intros l Hnd. apply dedup_from_fresh; [done|]. intros. apply lookup_empty. }
  split; [done|]. intros l. apply Hfix, NoDup_dedup_from.
Qed.

Lemma filter_ext_elem (P Q : string -> Prop)
  `{!forall x, Decision (P x)} `{!forall x, Decision (Q x)} l :
  (forall x, x ∈ l -> P x <-> Q x) -> filter P l = filter Q l.
Proof.
  induction l as [|a l IH]; intros Hext; [done|].
  rewrite !filter_cons.
  rewrite IH by (intros x Hx; apply Hext; by right).
  destruct (decide (P a)) as [Ha|Ha].
  - rewrite decide_True; [done|]. apply Hext; [left|done].
  - rewrite decide_False; [done|]. intros HQ. apply Ha, Hext; [left|done].
Qed.

Lemma filter_all (P : string -> Prop) `{!forall x, Decision (P x)} l :
  (forall x, x ∈ l -> P x) -> filter P l = l.
Proof.
  induction l as [|a l IH]; intros Hall; [done|].
  rewrite filter_cons_True by (apply Hall; left). f_equal.
  apply IH. intros x Hx. apply Hall. by right.
Qed.

(** Knowing more strings already only removes them from the result. *)
Lemma dedup_from_insert seen a l :
  dedup_from (<[a := a]> seen) l = filter (fun x => x <> a) (dedup_from seen l).
Proof.
  revert seen. induction l as [|b l IH]; intros seen; [done|].
  destruct (decide (b = a)) as [->|Hne].
  - rewrite dedup_from_seen by (rewrite lookup_insert_eq; eauto).
    destruct (seen !! a) as [v|] eqn:Ha.
    + rewrite dedup_from_seen by eauto. apply IH.
    + rewrite dedup_from_new by done.
      rewrite filter_cons_False by (by intros ?).
      symmetry. apply filter_all.
      intros x [_ Hx]%elem_of_dedup_from. intros ->.
      by rewrite lookup_insert_eq in Hx.
  - destruct (seen !! b) as [v|] eqn:Hb.
    + rewrite !dedup_from_seen; [apply IH|eauto|].
      rewrite lookup_insert_ne by done. eauto.
    + rewrite !dedup_from_new; [|done|by rewrite lookup_insert_ne].
      rewrite filter_cons_True by done. f_equal.
      rewrite insert_insert_ne by done. apply IH.
Qed.

Lemma dedup_from_app seen l1 l2 :
  dedup_from seen (l1 ++ l2)
  = dedup_from seen l1 ++ filter (fun x => x ∉ l1) (dedup_from seen l2).
Proof.
  revert seen. induction l1 as [|a l1 IH]; intros seen.
  - cbn [app]. rewrite filter_all; [done|].
    intros x _. apply not_elem_of_nil.
  - cbn [app]. destruct (seen !! a) as [v|] eqn:Ha.
    + rewrite !dedup_from_seen by eauto. rewrite IH. f_equal.
      apply filter_ext_elem. intros x [_ Hx]%elem_of_dedup_from.
      rewrite not_elem_of_cons. split; [|by intros [_ ?]].
      intros ?. split; [|done]. intros ->. congruence.
    + rewrite !dedup_from_new by done. rewrite IH. cbn [app]. do 2 f_equal.
      rewrite dedup_from_insert, list_filter_filter.
      apply list_filter_iff. intros x. rewrite not_elem_of_cons. tauto.
Qed.

(** X19.  Appending never changes what came first: the result for a list
    followed by another is the result for the first, followed by what
    the second adds that the first did not hold.  So the direct inputs keep
    their places whatever the list files add. *)
Theorem deduplicate_keeps_the_front l1 l2 :
  deduplicate (l1 ++ l2)
  = deduplicate l1 ++ filter (fun x => x ∉ l1) (deduplicate l2) /\
  deduplicate l1 `prefix_of` deduplicate (l1 ++ l2) /\
  (forall x, x ∈ l1 ->
     x ∉ drop (length (deduplicate l1)) (deduplicate (l1 ++ l2))).
Proof.
  assert (deduplicate (l1 ++ l2)
          = deduplicate l1 ++ filter (fun x => x ∉ l1) (deduplicate l2)) as Heq
    by apply dedup_from_app.
  split; [done|]. split.
  - rewrite Heq. by eexists.
  - intros x Hx. rewrite Heq, drop_app_length.
    by intros [? _]%list_elem_of_filter.
Qed.

End DeduplicateMore.

(** ** The label of a local file *)

Section FileLabel.
Import PyStr OsPath.
Implicit Types (s p : string) (c : ascii).

Lemma has_char_split c s :
  has_char c s = true ->
  exists s1 s2, s = s1 +:+ String c s2 /\ has_char c s2 = false.
Proof.
  induction s as [|a r IH]; [done|]. simpl.
  destruct (has_char c r) eqn:Hr.
  - intros _. destruct (IH eq_refl) as (s1 & s2 & -> & Hs2).
    by exists (String a s1), s2.
  - rewrite orb_false_r. intros ->%Ascii.eqb_eq. by exists EmptyString, r.
Qed.

Lemma basename_split dir name :
  has_char "/" name = false -> basename (dir +:+ String "/" name) = name.
Proof. apply (basename_after_slash dir name). Qed.

Lemma basename_no_slash_inside p : has_char "/" (basename p) = false.
Proof.
  destruct (has_char "/" p) eqn:Hp.
  - destruct (has_char_split _ _ Hp) as (dir & name & -> & Hname).
    by rewrite basename_split.
  - by rewrite basename_no_slash.
Qed.

Lemma has_char_take_chars c n s :
  has_char c s = false -> has_char c (take_chars n s) = false.
Proof.
  revert s. induction n as [|n IH]; intros [|a r]; try done.
  simpl. intros [-> Hr]%orb_false_iff. by apply IH.
Qed.

Lemma splitext_keeps_slash_free p :
  has_char "/" p = false -> has_char "/" (fst (splitext p)) = false.
Proof.
  intros Hp. unfold splitext.
  repeat case_match; cbn [fst]; try done.
  by apply has_char_take_chars.
Qed.

(** X20.  The label of a local file never holds a [/] and depends on the
    last path component only, so files of the same name in different
    directories get the same label; and a name that only starts with a dot
    is kept whole. *)
Theorem file_label_is_a_bare_name :
  (forall p, has_char "/" (file_source p) = false) /\
  (forall dir name,
     has_char "/" name = false ->
     file_source (dir +:+ "/" +:+ name) = file_source name) /\
  (forall name,
     has_char "/" name = false ->
     has_char "." name = false ->
     file_source ("." +:+ name) = "." +:+ name).
Proof.
  split; [|split].
  - intros p. unfold file_source.
    apply splitext_keeps_slash_free, basename_no_slash_inside.
  - intros dir name Hname. unfold file_source.
    by rewrite (basename_after_slash _ _ Hname), (basename_no_slash _ Hname).
  - intros name Hslash Hdot. unfold file_source.
    change ("." +:+ name) with (EmptyString +:+ String "." name).
    rewrite basename_no_slash by (simpl; by rewrite Hslash).
    unfold splitext. rewrite (rfind_last "." EmptyString name Hdot).
    rewrite rfind_absent by (simpl; by rewrite Hslash).
    done.
Qed.

End FileLabel.

(** ** Verbosity *)

Section Verbosity.
Local Open Scope Z_scope.

(** X21.  The count of [-v] flags (starting at 1) sets the level ten
    below the previous one for each flag, from [ERROR] down: records of
    level [ERROR] and above always pass, warnings pass from a count of
    two, that is from one [-v] on, and tracebacks are cut off for counts up
    to three. *)
Theorem verbosity_thresholds verbose :
  1 <= verbose ->
  log_level verbose <= Logging.ERROR /\
  (log_level verbose <= Logging.WARNING <-> 2 <= verbose) /\
  (hides_tracebacks verbose = true <-> verbose <= 3) /\
  log_level (verbose + 1) = log_level verbose - 10.
Proof.
  intros Hv. unfold hides_tracebacks, log_level.
  unfold Logging.ERROR, Logging.WARNING, Logging.CRITICAL, Logging.DEBUG.
  assert ((0 <? verbose) = true) as -> by lia.
  assert ((0 <? verbose + 1) = true) as -> by lia.
  rewrite Z.ltb_lt. lia.
Qed.

End Verbosity.

(** ** Nothing is retried *)

Section NoRetry.
Context {Envelope : Type} (W : World Envelope).
Implicit Types (P : Event Envelope -> Prop).

Lemma retrieve_collection_events P ci server title info :
  P (collection_event ci info) ->
  (forall source envelope, P (hand_over source envelope)) ->
  (forall msg, P (LogWarning msg)) ->
  Forall P (trace (retrieve_collection W ci server (title, info))).
Proof.
  intros Hconn Hpage Hwarn. unfold retrieve_collection.
  apply Forall_trace_bind; [by apply Forall_trace_emit|]. intros _ _.
  apply Forall_trace_bind; [apply Forall_trace_lift|]. intros pages _.
  apply Forall_trace_try_except.
  - rewrite trace_page_loop. apply Forall_trace_for_each. intros env _.
    rewrite process_stix_unfold. repeat constructor. apply Hpage.
  - intros e _. by apply Forall_trace_emit.
Qed.

Lemma retrieval_has_no_server_connect ci server collectionUrls :
  List.filter is_server_connect
    (trace (for_each collectionUrls (retrieve_collection W ci server))) = [].
Proof.
  apply filter_none, Forall_trace_for_each. intros [title info] _.
  by apply retrieve_collection_events.
Qed.

Lemma process_taxii_server_connects inarg :
  length (List.filter is_server_connect (trace (process_taxii W inarg))) <= 1.
Proof.
  destruct (parse_conn_info W inarg) as [e|ci] eqn:Hparse.
  { unfold process_taxii. rewrite Hparse. cbn. lia. }
  destruct (decide (taxiiVersion ci = Some "2.0")) as [H20|H20];
    [|destruct (decide (taxiiVersion ci = Some "2.1")) as [H21|H21]].
  3:{ unfold process_taxii.
      rewrite Hparse, bind_lift_inr, (connect_server_unsupported _ _ H20 H21).
      cbn. lia. }
  all: rewrite (process_taxii_supported _ _ _ Hparse) by (unfold supported; auto).
  all: destruct (TaxiiServer W _ _ _ _) as [e|server]; [cbn; lia|].
  all: destruct (collect_collection_urls W _ server) as [e|d]; [cbn; lia|].
  all: cbn [trace fst List.filter server_event is_server_connect].
  all: rewrite retrieval_has_no_server_connect; cbn; lia.
Qed.

Lemma length_filter_flat_map {A} (f : Event Envelope -> bool)
  (g : A -> list (Event Envelope)) (l : list A) n :
  (forall x, x ∈ l -> length (List.filter f (g x)) <= n) ->
  length (List.filter f (flat_map g l)) <= n * length l.
Proof.
  induction l as [|a l IH]; intros Hle; [cbn; lia|].
  cbn [flat_map]. rewrite List.filter_app, length_app. cbn [length].
  specialize (Hle a ltac:(left)) as Ha.
  specialize (IH ltac:(intros x Hx; apply Hle; by right)). lia.
Qed.

Lemma process_one_server_connects inarg :
  length (List.filter is_server_connect (trace (process_one W inarg))) <= 1.
Proof.
  destruct (isfile W inarg) eqn:Hf.
  - rewrite filter_none; [cbn; lia|].
    eapply Forall_impl; [by apply process_one_file_events|].
    by intros ev [->|[->|[msg ->]]].
  - rewrite process_one_unfold. cbn [trace fst].
    rewrite List.filter_app, length_app.
    assert (List.filter is_server_connect (specifier_warning W inarg) = []) as ->.
    { unfold specifier_warning. by destruct (outcome _). }
    cbn [length]. rewrite Nat.add_0_r.
    unfold process_body. rewrite Hf.
    destruct (PyStr.startswith _ _); [apply process_taxii_server_connects|].
    cbn. lia.
Qed.

(** X22.  No connection is tried twice: for one specifier at most one
    connection to a server is attempted, whether it succeeds or not, so a
    batch attempts at most as many as it has specifiers; and the loop over
    the matched collections attempts at most one connection for each. *)
Theorem no_connection_is_retried :
  (forall inarg,
     length (List.filter is_server_connect (trace (process_one W inarg))) <= 1) /\
  (forall inputs,
     length (List.filter is_server_connect (trace (process_inputs W inputs)))
     <= length inputs) /\
  (forall ci server collectionUrls,
     length (List.filter is_collection_connect
               (trace (for_each collectionUrls (retrieve_collection W ci server))))
     <= length collectionUrls).
Proof.
  split; [apply process_one_server_connects|]. split.
  - intros inputs. rewrite process_inputs_unfold. cbn [trace fst].
    pose proof (length_filter_flat_map is_server_connect
                  (fun x => trace (process_one W x)) inputs 1
                  (fun x _ => process_one_server_connects x)). lia.
  - intros ci server d. induction d as [|[title info] d IH]; [cbn; lia|].
    cbn [for_each length].
    assert (length (List.filter is_collection_connect
                      (trace (retrieve_collection W ci server (title, info)))) <= 1)
      as Hone.
    { unfold retrieve_collection. rewrite bind_emit.
      cbn [trace fst List.filter is_collection_connect length].
      rewrite filter_none; [cbn; lia|].
      destruct (TaxiiCollection W _ _ _ _) as [e|pages]; [constructor|].
      rewrite bind_lift_inr. apply Forall_trace_try_except.
      - rewrite trace_page_loop. apply Forall_trace_for_each. intros env _.
        rewrite process_stix_unfold. by repeat constructor.
      - intros e _. by apply Forall_trace_emit. }
    destruct (retrieve_collection W ci server (title, info)) as [t [e|[]]].
    + cbn in *. lia.
    + rewrite (bind_ok _ _ tt) by done. cbn [trace fst] in *.
      rewrite List.filter_app, length_app. lia.
Qed.

End NoRetry.

(** ** Local files that fail *)

Section FileFailures.
Context {Envelope : Type} (W : World Envelope).

(** X23.  An existing file that cannot be opened is not handed to the
    converter, and one the converter raises on has been handed over once;
    either way the specifier ends with one warning naming it, and it is
    not tried as a connection string. *)
Theorem file_failures_are_logged inarg e :
  isfile W inarg = true ->
  (open_input W inarg = inl e ->
   process_one W inarg
   = ([OpenInput inarg; LogWarning (msg_for inarg e)], inr tt)) /\
  (open_input W inarg = inr tt ->
   ProcessSTIX W (FromFile inarg) (file_source inarg) = inl e ->
   process_one W inarg
   = ([OpenInput inarg;
       CallProcessSTIX (FromFile inarg) (file_source inarg);
       LogWarning (msg_for inarg e)],
      inr tt)).
Proof.
  intros Hf. split.
  - intros Hopen. apply (process_one_raised W inarg [OpenInput inarg]).
    unfold process_body. by rewrite Hf, bind_emit, Hopen.
  - intros Hopen Hconv.
    apply (process_one_raised W inarg
             [OpenInput inarg; CallProcessSTIX (FromFile inarg) (file_source inarg)]).
    by rewrite (process_body_file _ _ Hf Hopen), Hconv.
Qed.

End FileFailures.

(** ** The further properties at work on the sample worlds *)

Module Witness2.

Lemma unknown_list_file_is_reported_witness :
  resolve_input_files Sample2.world ["missing.txt"; Sample2.lists_txt] ["first"]
  = (LogWarning (msg_not_found "missing.txt")
       :: trace (resolve_input_files Sample2.world [Sample2.lists_txt] ["first"]),
     outcome (resolve_input_files Sample2.world [Sample2.lists_txt] ["first"])).
Proof.
  apply (unknown_list_file_is_reported Sample2.world "missing.txt"
           [Sample2.lists_txt] ["first"]); reflexivity.
Defined.

Lemma pages_are_handed_over_in_order_witness :
  page_loop Sample.world "srv:Beta" ([8; 9], None)
  = (hand_over "srv:Beta" <$> [8; 9], inr tt).
Proof.
  apply (pages_are_handed_over_in_order Sample.world "srv:Beta" [8; 9] None).
  intros envelope _. reflexivity.
Defined.

Lemma conversion_failure_drops_later_pages_witness :
  page_loop Sample2.world "One" ([1; 2; 3], None)
  = (hand_over "One" <$> [1; 2], inl Sample2.malformed).
Proof.
  apply (conversion_failure_drops_later_pages Sample2.world "One"
           [1] 2 [3] None Sample2.malformed); [|reflexivity].
  intros x Hx. apply list_elem_of_singleton in Hx. subst x. reflexivity.
Defined.

Lemma discovery_failure_skips_the_specifier_witness :
  process_inputs Sample2.world ["taxii|2.1|https://y/disc|*"; Sample2.a_json]
  = (server_event Sample2.ci_y
       :: LogWarning (msg_for "taxii|2.1|https://y/disc|*" Sample2.timeout)
       :: trace (process_inputs Sample2.world [Sample2.a_json]),
     inr tt).
Proof.
  apply (discovery_failure_skips_the_specifier Sample2.world
           "taxii|2.1|https://y/disc|*" Sample2.ci_y Sample2.timeout [Sample2.a_json]);
    try reflexivity.
  - right. reflexivity.
  - right. exists Sample2.server_y. split; reflexivity.
Defined.

Lemma enumeration_is_all_or_nothing_witness :
  collect_collection_urls Sample2.world (Some "*") Sample2.server_y
  = inl Sample2.timeout.
Proof.
  apply (enumeration_is_all_or_nothing Sample2.world "*" Sample2.server_y
           [mkApiRoot (inr [mkCollection "1" "Alpha" "y/a"])]
           (mkApiRoot (inl Sample2.timeout)) []
           [[mkCollection "1" "Alpha" "y/a"]] Sample2.timeout); reflexivity.
Defined.

Lemma collection_connect_failure_ends_the_loop_witness :
  for_each [("One", mkCollInfo "1" "z/1"); ("Two", mkCollInfo "2" "z/bad");
            ("Three", mkCollInfo "3" "z/3")]
    (retrieve_collection Sample2.world (Sample2.ci_z "*") Sample2.server_z)
  = (trace (for_each [("One", mkCollInfo "1" "z/1")]
              (retrieve_collection Sample2.world (Sample2.ci_z "*") Sample2.server_z))
     ++ [collection_event (Sample2.ci_z "*") (mkCollInfo "2" "z/bad")],
     inl Sample2.bad_url).
Proof.
  apply (collection_connect_failure_ends_the_loop Sample2.world (Sample2.ci_z "*")
           Sample2.server_z [("One", mkCollInfo "1" "z/1")]
           "Two" (mkCollInfo "2" "z/bad") [("Three", mkCollInfo "3" "z/3")]
           Sample2.bad_url); reflexivity.
Defined.

Lemma no_match_is_silent_witness :
  process_one Sample2.world "taxii|2.0|https://z/disc|nothing"
  = ([server_event (Sample2.ci_z "nothing")], inr tt).
Proof.
  apply (no_match_is_silent Sample2.world "taxii|2.0|https://z/disc|nothing"
           (Sample2.ci_z "nothing") "nothing" Sample2.server_z
           [mkApiRoot (inr [mkCollection "1" "One" "z/1";
                            mkCollection "2" "Two" "z/bad";
                            mkCollection "3" "Three" "z/3"])]
           [[mkCollection "1" "One" "z/1"; mkCollection "2" "Two" "z/bad";
             mkCollection "3" "Three" "z/3"]]); try reflexivity.
  - left. reflexivity.
  - intros c Hc. apply list_elem_of_In in Hc. simpl in Hc.
    destruct Hc as [<-|[<-|[<-|[]]]]; reflexivity.
Defined.

Lemma connections_use_the_parsed_fields_witness :
  Forall (uses_conn
            (mkConnInfo (Some "2.1") (Some Sample.disc) (Some "*") (Some "u") None))
    (trace (process_taxii Sample.world "taxii|2.1|https://x/disc|*|u")).
Proof.
  apply (connections_use_the_parsed_fields Sample.world
           "taxii|2.1|https://x/disc|*|u"). reflexivity.
Defined.

Lemma files_and_servers_are_kept_apart_witness :
  Forall off_line (trace (process_one Sample.world Sample.a_json)) /\
  Forall off_disk (trace (process_one Sample.world "taxii|2.1|https://x/disc|*")) /\
  (Sample.a_json ∈ [Sample.a_json; "foo"] /\
   isfile Sample.world Sample.a_json = true).
Proof.
  destruct (files_and_servers_are_kept_apart Sample.world) as (H1 & H2 & H3).
  split; [|split].
  - apply H1. reflexivity.
  - apply H2. reflexivity.
  - apply H3. vm_compute. constructor.
Defined.

Lemma each_file_is_converted_once_witness :
  List.filter (is_file_call Sample2.a_json)
    (trace (main Sample2.world
              (mkArgs true true (Some [Sample2.a_json; "b.json"; Sample2.a_json])
                 (Some [Sample2.lists_txt]) None)))
  = [CallProcessSTIX (FromFile Sample2.a_json) (file_source Sample2.a_json)].
Proof.
  apply (each_file_is_converted_once Sample2.world _ [Sample2.lists_txt]);
    try reflexivity.
  - intros p Hp. discriminate Hp.
  - vm_compute. constructor.
Defined.

Lemma retrieval_follows_first_appearance_witness :
  (exists collectionUrls,
     collect_collection_urls Sample.world (Some "*") Sample.server
     = inr collectionUrls /\
     dict_keys collectionUrls = ["Alpha"; "Beta"; "alpha"]) /\
  (exists collectionUrls,
     collect_collection_urls Sample.world (Some "beTA") Sample.server
     = inr collectionUrls /\
     dict_keys collectionUrls = ["Beta"]).
Proof.
  split.
  - apply (retrieval_follows_first_appearance Sample.world "*" Sample.server
             [mkApiRoot (inr [mkCollection "1" "Alpha" "coll/a";
                              mkCollection "2" "Beta" "coll/b"]);
              mkApiRoot (inr [mkCollection "3" "alpha" "coll/c";
                              mkCollection "4" "Beta" "coll/d"])]
             [[mkCollection "1" "Alpha" "coll/a"; mkCollection "2" "Beta" "coll/b"];
              [mkCollection "3" "alpha" "coll/c"; mkCollection "4" "Beta" "coll/d"]]);
      reflexivity.
  - apply (retrieval_follows_first_appearance Sample.world "beTA" Sample.server
             [mkApiRoot (inr [mkCollection "1" "Alpha" "coll/a";
                              mkCollection "2" "Beta" "coll/b"]);
              mkApiRoot (inr [mkCollection "3" "alpha" "coll/c";
                              mkCollection "4" "Beta" "coll/d"])]
             [[mkCollection "1" "Alpha" "coll/a"; mkCollection "2" "Beta" "coll/b"];
              [mkCollection "3" "alpha" "coll/c"; mkCollection "4" "Beta" "coll/d"]]);
      reflexivity.
Defined.


Lemma undecodable_field_rejects_the_specifier_witness :
  process_one Sample.world "taxii|2.0|base64:@@|x"
  = ([LogWarning (msg_for "taxii|2.0|base64:@@|x" (mkExc "Error" "padding"))],
     inr tt).
Proof.
  apply (undecodable_field_rejects_the_specifier Sample.world
           "taxii|2.0|base64:@@|x" ["2.0"] "base64:@@" ["x"]); try reflexivity.
  intros y Hy. apply list_elem_of_singleton in Hy. subst y.
  exists "2.0". reflexivity.
Defined.

Lemma connection_string_round_trip_witness :
  parse_conn_info Sample2.world "taxii|2.0|https://z/disc|One|guest|secret"
  = inr (mkConnInfo (Some "2.0") (Some Sample2.z_disc) (Some "One")
           (Some "guest") (Some "secret")).
Proof.
  apply (connection_string_round_trip Sample2.world
           "taxii" "2.0" Sample2.z_disc "One" "guest" "secret");
    repeat constructor.
Defined.

Lemma pipe_in_password_cuts_it_witness :
  parse_conn_info Sample2.world "taxii|2.0|https://z/disc|One|guest|se|cret"
  = inr (mkConnInfo (Some "2.0") (Some Sample2.z_disc) (Some "One")
           (Some "guest") (Some "se")).
Proof.
  apply (pipe_in_password_cuts_it Sample2.world
           "taxii" "2.0" Sample2.z_disc "One" "guest" "se" "cret");
    repeat constructor.
Defined.

Lemma deduplicate_fixes_duplicate_free_lists_witness :
  deduplicate ["b.json"; "a.json"; "taxii|2.0|u|c"]
  = ["b.json"; "a.json"; "taxii|2.0|u|c"].
Proof.
  apply (proj1 deduplicate_fixes_duplicate_free_lists).
  apply (bool_decide_unpack _). vm_compute. exact I.
Defined.

Lemma file_label_is_a_bare_name_witness :
  file_source ("/feeds/2024" +:+ "/" +:+ "a.json") = file_source "a.json" /\
  file_source ("." +:+ "bashrc") = "." +:+ "bashrc".
Proof.
  destruct file_label_is_a_bare_name as (_ & Hdir & Hdot).
  split.
  - apply (Hdir "/feeds/2024" "a.json"). reflexivity.
  - apply (Hdot "bashrc"); reflexivity.
Defined.

Lemma verbosity_thresholds_witness :
  (log_level 1 <= Logging.ERROR)%Z /\
  ((log_level 1 <= Logging.WARNING)%Z <-> (2 <= 1)%Z) /\
  (hides_tracebacks 1 = true <-> (1 <= 3)%Z) /\
  log_level (1 + 1) = (log_level 1 - 10)%Z.
Proof. apply (verbosity_thresholds 1). lia. Defined.

Lemma file_failures_are_logged_witness :
  process_one Sample.world Sample.locked
  = ([OpenInput Sample.locked; LogWarning (msg_for Sample.locked Sample.denied)],
     inr tt).
Proof.
  apply (proj1 (file_failures_are_logged Sample.world Sample.locked Sample.denied
                  eq_refl)).
  reflexivity.
Defined.

End Witness2.
